(** * SprintAI content pipeline: quality gate and publish dispatcher

    Shallow embedding of [backend/content_qa.py] and
    [backend/post_scheduler.py].

    Modelling conventions.
    - A Python [str] is a [string]; one character stands for one code point.
    - A value decoded from JSON is a [json]; a JSON object (a Python [dict])
      is a [gmap string json].  Where the code walks a dict in insertion
      order (the scores of a QA answer), the place of each key in the JSON
      text is a parameter.
    - A Python [int] is an integer of [Z]; a Python [float] is an IEEE 754
      binary64 number, a [spec_float] with the correctly rounded operations
      of the Standard Library (precision 53, exponents up to 1024).  [sum]
      adds from left to right, as CPython does up to version 3.11; later
      versions compensate the rounding errors of a sum of floats.
    - A raised exception is a value of [exn]; code that may raise returns a
      [result].
    - Rows of the Supabase tables are records with one field per column the
      programs read or write; a table is the list of its rows.
    - The network, the scoring oracle and the process environment are
      parameters of the sections below. *)

From Stdlib Require Import ZArith String Ascii SpecFloat.
From stdpp Require Import base option list sorting strings gmap fin_maps pretty.

Set Warnings "-register-all".

Open Scope Z_scope.

(** ** Python values and exceptions *)

Module Py.

(** *** Floats *)

Abbreviation float := spec_float.

Definition prec : Z := 53.
Definition emax : Z := 1024.

Definition fadd : float → float → float := SFadd prec emax.
Definition fdiv : float → float → float := SFdiv prec emax.

(** [x <= y]; false when one side is a NaN. *)
Definition fle : float → float → bool := SFleb.

(** Whether two floats are the same value, bit for bit. *)
Definition float_eqb (x y : float) : bool :=
  match x, y with
  | S754_zero a, S754_zero b => Bool.eqb a b
  | S754_infinity a, S754_infinity b => Bool.eqb a b
  | S754_nan, S754_nan => true
  | S754_finite a m e, S754_finite b n f =>
      Bool.eqb a b && Pos.eqb m n && Z.eqb e f
  | _, _ => false
  end.

(** The double nearest to the integer [z], infinite beyond the range. *)
Definition of_Z (z : Z) : float := binary_normalize prec emax z 0 false.

(** The double nearest to the quotient [a / b] of two integers, [b] not
    zero, a tie going to the even mantissa; infinite beyond the range.
    This is how [int / int] rounds, and how a decimal literal is read. *)
Definition nearest_double (a b : Z) : float :=
  if a =? 0 then S754_zero (b <? 0)
  else
    let '(q, e, l) := SFdiv_core_binary prec emax (Z.abs a) 0 (Z.abs b) 0 in
    binary_round_aux prec emax (xorb (a <? 0) (b <? 0)) q e l.

(** The float that the decimal with [t] tenths denotes: [tenths 68] is the
    Python float [6.8]. *)
Definition tenths (t : Z) : float := nearest_double t 10.

(** The integer nearest to [a / b] for [0 < b], a tie going to the even
    neighbour. *)
Definition round_half_even (a b : Z) : Z :=
  let q := a / b in
  match 2 * (a mod b) ?= b with
  | Lt => q
  | Gt => q + 1
  | Eq => if Z.even q then q else q + 1
  end.

(** [round(x, 1)]: the exact value of [x] is rounded to the nearest tenth,
    a tie going to the even one, and the float nearest to that decimal is
    returned; zeros, infinities and NaN are returned as they are. *)
Definition round1 (x : float) : float :=
  match x with
  | S754_finite s m e =>
      let t := match e with
               | Zneg k => round_half_even (10 * Zpos m) (2 ^ Zpos k)
               | _ => 10 * Zpos m * 2 ^ e
               end in
      if t =? 0 then S754_zero s
      else nearest_double (if s then - t else t) 10
  | _ => x
  end.

(** *** JSON values *)

Inductive json :=
| JNull
| JBool (b : bool)
| JInt (z : Z)
| JFloat (x : float)
| JStr (s : string)
| JArr (l : list json)
| JObj (d : gmap string json).

(** [bool(v)]: Python truthiness. *)
Definition truthy (v : json) : bool :=
  match v with
  | JNull => false
  | JBool b => b
  | JInt z => negb (z =? 0)
  | JFloat x => match x with S754_zero _ => false | _ => true end
  | JStr s => negb (String.eqb s "")
  | JArr l => match l with [] => false | _ :: _ => true end
  | JObj d => negb (bool_decide (d = ∅))
  end.

(** Truthiness of an optional string column ([None] and [""] are falsy). *)
Definition truthy_str (o : option string) : bool :=
  match o with
  | Some s => negb (String.eqb s "")
  | None => false
  end.

Inductive exn :=
| ValueError (msg : string)
| RuntimeError (msg : string)
| KeyError (key : string)
| TypeError (v : json)          (* the value the operation does not apply to *)
| OperandTypeError (a b : json) (* TypeError: the operands [+] does not take *)
| AttributeError (v : json) (attr : string)
| ZeroDivisionError (msg : string)
| OverflowError (msg : string)
| HTTPError (status : Z) (at_url : string)
| RequestException (msg : string).  (* transport failure: timeout, refused, ... *)

Inductive result (A : Type) :=
| Ok (a : A)
| Raise (e : exn).
Arguments Ok {A} a.
Arguments Raise {A} e.

Definition is_ok {A} (r : result A) : bool :=
  match r with Ok _ => true | Raise _ => false end.

Definition and_then {A B} (r : result A) (k : A → result B) : result B :=
  match r with
  | Ok a => k a
  | Raise e => Raise e
  end.

(** [v.get(k, dflt)]: only a dict has the method. *)
Definition get_method (v : json) (k : string) (dflt : json) : result json :=
  match v with
  | JObj d => Ok (default dflt (d !! k))
  | _ => Raise (AttributeError v "get")
  end.

(** [v[k]] with a string key. *)
Definition subscript (v : json) (k : string) : result json :=
  match v with
  | JObj d => match d !! k with
              | Some x => Ok x
              | None => Raise (KeyError k)
              end
  | _ => Raise (TypeError v)
  end.

(** *** Arithmetic *)

(** [float(z)], as the arithmetic converts an [int] operand. *)
Definition float_of_int (z : Z) : result float :=
  match of_Z z with
  | S754_infinity _ => Raise (OverflowError "int too large to convert to float")
  | x => Ok x
  end.

(** What [sum] carries along: an [int] or a [float]. *)
Inductive number :=
| NInt (z : Z)
| NFloat (x : float).

Definition json_of_number (a : number) : json :=
  match a with NInt z => JInt z | NFloat x => JFloat x end.

Definition add_int (acc : number) (z : Z) : result number :=
  match acc with
  | NInt a => Ok (NInt (a + z))
  | NFloat a => and_then (float_of_int z) (λ fz, Ok (NFloat (fadd a fz)))
  end.

(** [acc + v]: [bool] is an [int]; an [int] meeting a [float] is converted. *)
Definition py_add (acc : number) (v : json) : result number :=
  match v with
  | JInt z => add_int acc z
  | JBool b => add_int acc (Z.b2z b)
  | JFloat x =>
      match acc with
      | NInt a => and_then (float_of_int a) (λ fa, Ok (NFloat (fadd fa x)))
      | NFloat a => Ok (NFloat (fadd a x))
      end
  | _ => Raise (OperandTypeError (json_of_number acc) v)
  end.

(** [sum(vals)] from the running total [acc], left to right. *)
Fixpoint py_sum (acc : number) (vals : list json) : result number :=
  match vals with
  | [] => Ok acc
  | v :: rest => and_then (py_add acc v) (λ acc', py_sum acc' rest)
  end.

(** [x / n] for an [int] [n]: true division, always a [float]. *)
Definition true_div (x : number) (n : Z) : result float :=
  match x with
  | NInt a =>
      if n =? 0 then Raise (ZeroDivisionError "division by zero")
      else
        match nearest_double a n with
        | S754_infinity _ =>
            Raise (OverflowError "integer division result too large for a float")
        | q => Ok q
        end
  | NFloat f =>
      and_then (float_of_int n) (λ d,
        if n =? 0 then Raise (ZeroDivisionError "float division by zero")
        else Ok (fdiv f d))
  end.

(** *** Strings *)

(** [s[:n]] on a string. *)
Definition str_prefix (n : nat) (s : string) : string := substring 0 n s.

(** The characters [str.strip()] removes, among the code points below 256. *)
Definition isspace (c : ascii) : bool :=
  let n := nat_of_ascii c in
  ((9 <=? n)%nat && (n <=? 13)%nat) || ((28 <=? n)%nat && (n <=? 32)%nat)
  || (n =? 133)%nat || (n =? 160)%nat.

Fixpoint lstrip (s : string) : string :=
  match s with
  | String c s' => if isspace c then lstrip s' else s
  | EmptyString => EmptyString
  end.

Fixpoint rstrip (s : string) : string :=
  match s with
  | String c s' =>
      match rstrip s' with
      | EmptyString => if isspace c then EmptyString else String c EmptyString
      | t => String c t
      end
  | EmptyString => EmptyString
  end.

(** [s.strip()]. *)
Definition strip (s : string) : string := rstrip (lstrip s).

End Py.
Import Py.

Notation "'let?' x ':=' m 'in' k" := (and_then m (λ x, k))
  (at level 10, x name, m at level 100, k at level 200, only parsing).

(** ** The shared content calendar *)

(** A row of [sprintai_content_calendar].  Instants are seconds on the UTC
    time line. *)
Record post := {
  id : string;
  client_id : string;
  platform : string;
  post_text : string;
  image_url : option string;
  scheduled_at : Z;
  status : string;
  status_prev : option string;
  qa_score : option float;
  qa_rewritten : option bool;
}.

Definition set_status (s : string) (p : post) : post :=
  {| id := id p; client_id := client_id p; platform := platform p;
     post_text := post_text p; image_url := image_url p;
     scheduled_at := scheduled_at p; status := s;
     status_prev := status_prev p; qa_score := qa_score p;
     qa_rewritten := qa_rewritten p |}.

(** [.update(f).eq("id", cid)]: every row whose id is [cid] is rewritten. *)
Definition update_by_id (cid : string) (f : post → post) (cal : list post)
  : list post :=
  (λ p, if String.eqb (id p) cid then f p else p) <$> cal.

(** ** post_scheduler.py *)

Module PostScheduler.

(** A row of [sprintai_social_connections]. *)
Record connection := {
  conn_client_id : string;
  conn_platform : string;
  page_id : string;
  access_token : string;
}.

(** A row of [sprintai_posts], the companion publication log; a column is
    [None] when it is NULL: the insert does not name it, or gives it a Python
    [None]. *)
Record pub_row := {
  calendar_id : string;
  pub_client_id : string;
  pub_platform : string;
  external_post_id : option json;
  posted_at : option Z;
  error_message : option string;
}.

(** How a value of an inserted row is stored. *)
Definition column (v : json) : option json :=
  match v with JNull => None | _ => Some v end.

(** What [requests.post] is called with. *)
Inductive payload :=
| Form (d : gmap string json)     (* data=... *)
| JsonBody (j : json).            (* json=... *)

Record request := {
  url : string;
  body : payload;
  bearer : option json;           (* Authorization: Bearer ... *)
  timeout : Z;
}.

(** What it returns: the status line and what [r.json()] evaluates to. *)
Record response := {
  status_code : Z;
  r_json : result json;
}.

(** Handlers only talk to the network: they run over the log of the
    requests sent so far and may raise. *)
Definition NetM (A : Type) : Type := list request → result A * list request.

Definition ret {A} (a : A) : NetM A := λ sent, (Ok a, sent).
Definition throw {A} (e : exn) : NetM A := λ sent, (Raise e, sent).
Definition bind {A B} (m : NetM A) (k : A → NetM B) : NetM B :=
  λ sent,
    match m sent with
    | (Ok a, sent') => k a sent'
    | (Raise e, sent') => (Raise e, sent')
    end.
Definition lift {A} (r : result A) : NetM A := λ sent, (r, sent).

Notation "'let*' x ':=' m 'in' k" := (bind m (λ x, k))
  (at level 10, x name, m at level 100, k at level 200, only parsing).

(** A platform handler. *)
Abbreviation handler := (post → connection → NetM json).

Section WithEnvironment.

(** The remote side: the answer to the [n]-th request of the run, or the
    transport exception (a timeout included) it ends in. *)
Variable net : nat → request → result response.

(** [os.environ]. *)
Variable environ : gmap string string.

(** [str(exc)]. *)
Variable exn_str : exn → string.

Definition requests_post (rq : request) : NetM response :=
  λ sent, (net (length sent) rq, sent ++ [rq]).

(** [r.raise_for_status()]. *)
Definition raise_for_status (rq : request) (r : response) : NetM unit :=
  if (400 <=? status_code r) && (status_code r <? 600)
  then throw (HTTPError (status_code r) (url rq))
  else ret tt.

Definition graph (page : string) (edge : string) : string :=
  "https://graph.facebook.com/v19.0/" +:+ page +:+ edge.

Definition facebook_request (p : post) (c : connection) : request :=
  if truthy_str (image_url p)
  then {| url := graph (page_id c) "/photos";
          body := Form (list_to_map
                    [("url", JStr (default "" (image_url p)));
                     ("caption", JStr (post_text p));
                     ("access_token", JStr (access_token c))]);
          bearer := None; timeout := 30 |}
  else {| url := graph (page_id c) "/feed";
          body := Form (list_to_map
                    [("message", JStr (post_text p));
                     ("access_token", JStr (access_token c))]);
          bearer := None; timeout := 30 |}.

Definition post_facebook (p : post) (c : connection) : NetM json :=
  let rq := facebook_request p c in
  let* r := requests_post rq in
  let* _ := raise_for_status rq r in
  let* data := lift (r_json r) in
  let* a := lift (get_method data "post_id" JNull) in
  if truthy a then ret a
  else lift (get_method data "id" (JStr "unknown")).

Definition instagram_media_request (img : string) (p : post) (c : connection)
  : request :=
  {| url := graph (page_id c) "/media";
     body := Form (list_to_map
               [("image_url", JStr img);
                ("caption", JStr (post_text p));
                ("access_token", JStr (access_token c))]);
     bearer := None; timeout := 30 |}.

Definition instagram_publish_request (creation_id : json) (c : connection)
  : request :=
  {| url := graph (page_id c) "/media_publish";
     body := Form (list_to_map
               [("creation_id", creation_id);
                ("access_token", JStr (access_token c))]);
     bearer := None; timeout := 30 |}.

Definition post_instagram (p : post) (c : connection) : NetM json :=
  if negb (truthy_str (image_url p))
  then throw (ValueError "Instagram posts require an image_url.")
  else
    let rq1 := instagram_media_request (default "" (image_url p)) p c in
    let* r1 := requests_post rq1 in
    let* _ := raise_for_status rq1 r1 in
    let* d1 := lift (r_json r1) in
    let* creation_id := lift (subscript d1 "id") in
    let rq2 := instagram_publish_request creation_id c in
    let* r2 := requests_post rq2 in
    let* _ := raise_for_status rq2 r2 in
    let* d2 := lift (r_json r2) in
    lift (get_method d2 "id" creation_id).

(** [os.environ[k]]. *)
Definition getenv (k : string) : NetM string :=
  match environ !! k with
  | Some v => ret v
  | None => throw (KeyError k)
  end.

Definition google_token_request (refresh_token cid secret : string) : request :=
  {| url := "https://oauth2.googleapis.com/token";
     body := Form (list_to_map
               [("grant_type", JStr "refresh_token");
                ("refresh_token", JStr refresh_token);
                ("client_id", JStr cid);
                ("client_secret", JStr secret)]);
     bearer := None; timeout := 15 |}.

Definition refresh_google_token (refresh_token : string) : NetM json :=
  let* cid := getenv "GOOGLE_CLIENT_ID" in
  let* secret := getenv "GOOGLE_CLIENT_SECRET" in
  let rq := google_token_request refresh_token cid secret in
  let* r := requests_post rq in
  let* _ := raise_for_status rq r in
  let* d := lift (r_json r) in
  lift (subscript d "access_token").

Definition google_post_body (p : post) : gmap string json :=
  let base : gmap string json :=
    list_to_map [("languageCode", JStr "en-US");
                 ("summary", JStr (post_text p));
                 ("topicType", JStr "STANDARD")] in
  if truthy_str (image_url p)
  then <["media" :=
          JArr [JObj (list_to_map
                  [("mediaFormat", JStr "PHOTO");
                   ("sourceUrl", JStr (default "" (image_url p)))])]]> base
  else base.

Definition google_post_request (tok : json) (p : post) (c : connection)
  : request :=
  {| url := "https://mybusiness.googleapis.com/v4/" +:+ page_id c +:+ "/localPosts";
     body := JsonBody (JObj (google_post_body p));
     bearer := Some tok; timeout := 30 |}.

Definition post_google_business (p : post) (c : connection) : NetM json :=
  let* tok := refresh_google_token (access_token c) in
  let rq := google_post_request tok p c in
  let* r := requests_post rq in
  let* _ := raise_for_status rq r in
  let* d := lift (r_json r) in
  lift (get_method d "name" (JStr "unknown")).

(** *** The store and the main loop *)

Record world := {
  calendar : list post;
  connections : list connection;
  sprintai_posts : list pub_row;
  sent : list request;
}.

Definition set_sent (l : list request) (w : world) : world :=
  {| calendar := calendar w; connections := connections w;
     sprintai_posts := sprintai_posts w; sent := l |}.

(** [now] is the instant [datetime.now(timezone.utc)] reads; a run is taken
    to happen at one instant. *)
Definition get_pending_posts (now : Z) (w : world) : list post :=
  filter (λ p, status p = "pending" ∧ scheduled_at p ≤ now) (calendar w).

Definition get_connection (w : world) (cid plat : string) : option connection :=
  head (filter (λ c, conn_client_id c = cid ∧ conn_platform c = plat)
               (connections w)).

Definition mark_posted (now : Z) (cal_id cid plat : string) (ext : json)
    (w : world) : world :=
  {| calendar := update_by_id cal_id (set_status "posted") (calendar w);
     connections := connections w;
     sprintai_posts := sprintai_posts w ++
       [{| calendar_id := cal_id; pub_client_id := cid; pub_platform := plat;
           external_post_id := column ext; posted_at := Some now;
           error_message := None |}];
     sent := sent w |}.

Definition mark_failed (cal_id cid plat : string) (error : string)
    (w : world) : world :=
  {| calendar := update_by_id cal_id (set_status "failed") (calendar w);
     connections := connections w;
     sprintai_posts := sprintai_posts w ++
       [{| calendar_id := cal_id; pub_client_id := cid; pub_platform := plat;
           external_post_id := None; posted_at := None;
           error_message := Some (str_prefix 2000 error) |}];
     sent := sent w |}.

Definition PLATFORM_HANDLERS : gmap string handler :=
  list_to_map [("facebook", post_facebook);
               ("instagram", post_instagram);
               ("google_business", post_google_business)].

(** [PLATFORM_HANDLERS.get(platform)]. *)
Definition handler_for (plat : string) : option handler :=
  PLATFORM_HANDLERS !! plat.

(** How the loop body ends for one post, and the counters it bumps. *)
Inductive outcome :=
| Posted (ext : json)
| Failed (err : string)
| Skipped.

Record counts := { success : nat; failed : nat; skipped : nat }.

Definition tally (o : outcome) (c : counts) : counts :=
  match o with
  | Posted _ => {| success := S (success c); failed := failed c; skipped := skipped c |}
  | Failed _ => {| success := success c; failed := S (failed c); skipped := skipped c |}
  | Skipped => {| success := success c; failed := failed c; skipped := S (skipped c) |}
  end.

Definition no_connection_error (p : post) : string :=
  "No " +:+ platform p +:+ " connection found for client " +:+ client_id p.

(** The body of the [for post in pending] loop. *)
Definition dispatch_post (now : Z) (p : post) (w : world) : world * outcome :=
  match handler_for (platform p) with
  | None => (w, Skipped)
  | Some h =>
      match get_connection w (client_id p) (platform p) with
      | None =>
          let err := no_connection_error p in
          (mark_failed (id p) (client_id p) (platform p) err w, Failed err)
      | Some c =>
          match h p c (sent w) with
          | (Ok post_id, sent') =>
              (mark_posted now (id p) (client_id p) (platform p) post_id
                 (set_sent sent' w), Posted post_id)
          | (Raise exc, sent') =>
              let err := exn_str exc in
              (mark_failed (id p) (client_id p) (platform p) err
                 (set_sent sent' w), Failed err)
          end
      end
  end.

Fixpoint dispatch_loop (now : Z) (pending : list post) (w : world) (c : counts)
  : world * counts :=
  match pending with
  | [] => (w, c)
  | p :: rest =>
      let '(w', o) := dispatch_post now p w in
      dispatch_loop now rest w' (tally o c)
  end.

(** [success = failed = skipped = 0]. *)
Definition no_counts : counts := {| success := 0; failed := 0; skipped := 0 |}.

(** [run()]; the counts are those of the final [Done.] line, absent when
    the run stops at [No pending posts.] *)
Definition run (now : Z) (w : world) : world * option counts :=
  match get_pending_posts now w with
  | [] => (w, None)
  | pending =>
      let '(w', c) := dispatch_loop now pending w no_counts in
      (w', Some c)
  end.

(** The store at the moment the handler of [p] has returned or raised and
    nothing has been recorded yet; [None] when no handler is called. *)
Definition after_handler_call (p : post) (w : world)
  : option (result json * world) :=
  match handler_for (platform p) with
  | None => None
  | Some h =>
      match get_connection w (client_id p) (platform p) with
      | None => None
      | Some c => let '(r, sent') := h p c (sent w) in Some (r, set_sent sent' w)
      end
  end.

End WithEnvironment.

(** The calendar once the loop body has ended in [o] for the post [i]. *)
Definition recorded (o : outcome) (i : string) (cal : list post) : list post :=
  match o with
  | Posted _ => update_by_id i (set_status "posted") cal
  | Failed _ => update_by_id i (set_status "failed") cal
  | Skipped => cal
  end.

(** The rows of [q] in the calendar [after] are as the outcome [o] of its
    own turn leaves them: posted, failed, or as they were in [before]. *)
Definition settled (o : outcome) (q : post) (before after : list post) : Prop :=
  match o with
  | Posted _ => ∀ row, row ∈ after → id row = id q → status row = "posted"
  | Failed _ => ∀ row, row ∈ after → id row = id q → status row = "failed"
  | Skipped => ∀ row, id row = id q → (row ∈ after ↔ row ∈ before)
  end.

(** The number of companion rows written for the calendar row [i]. *)
Definition rows_for (i : string) (log : list pub_row) : nat :=
  length (filter (λ r, calendar_id r = i) log).

End PostScheduler.

(** ** content_qa.py *)

Module ContentQA.

Definition APPROVAL_THRESHOLD : float := of_Z 7.

Definition PLATFORM_LABELS : gmap string string :=
  list_to_map [("facebook", "Facebook");
               ("instagram", "Instagram");
               ("google_business", "Google Business Profile (GBP)")].

(** What [build_qa_prompt] puts into the two messages. *)
Record prompt := {
  rubric_text : string;
  platform_label : string;
  company_name : json;
  city : json;
  reviewed_text : string;
}.

Definition build_qa_prompt (p : post) (client : gmap string json)
    (rubric : string) : prompt :=
  {| rubric_text := rubric;
     platform_label := default (platform p) (PLATFORM_LABELS !! platform p);
     company_name := default (JStr "Unknown Company") (client !! "name");
     city := default (default (JStr "their local area") (client !! "state"))
                     (client !! "city");
     reviewed_text := post_text p |}.

(** The dict [call_claude_qa] returns. *)
Record qa := {
  scores : gmap string json;
  average : float;
  verdict : string;
  issues : json;
  improved_version : json;
}.

Definition required : list string :=
  ["scores"; "average"; "verdict"; "issues"; "improved_version"].

(** [scores.values()]: the values in the order in which the JSON text
    lists the keys, which the map has forgotten; [pos k] is the place of the
    key [k] in that text. *)
Definition listed_before (pos : string → nat) (a b : string * json) : Prop :=
  (pos a.1 ≤ pos b.1)%nat.

#[global] Instance listed_before_dec pos a b : Decision (listed_before pos a b) :=
  decide (pos a.1 ≤ pos b.1)%nat.

Definition values_in_order (pos : string → nat) (d : gmap string json)
  : list json :=
  (merge_sort (listed_before pos) (map_to_list d)).*2.

(** [round(sum(scores.values()) / len(scores), 1)]. *)
Definition recalculated_average (pos : string → nat) (scores : json)
  : result float :=
  match scores with
  | JObj d =>
      let? total := py_sum (NInt 0) (values_in_order pos d) in
      let? mean := true_div total (Z.of_nat (size d)) in
      Ok (round1 mean)
  | _ => Raise (AttributeError scores "values")
  end.

(** ["APPROVED" if avg >= APPROVAL_THRESHOLD else "REWRITE"]. *)
Definition enforced_verdict (avg : float) : string :=
  if fle APPROVAL_THRESHOLD avg then "APPROVED" else "REWRITE".

Section WithOracle.

(** The scoring oracle: for the [n]-th call of the run, the value
    [json.loads(raw)] evaluates to, or the exception the request, the status
    check, the envelope access or the decoder ends in. *)
Variable oracle : nat → prompt → result json.

(** [str(exc)] and the text of [result.keys()]. *)
Variable exn_str : exn → string.
Variable keys_repr : gmap string json → string.

(** The place of each key in the scores object of the [n]-th answer. *)
Variable position : nat → string → nat.

(** The part of the [try] block after [json.loads]. *)
Definition validate_and_score (pos : string → nat) (res : json) : result qa :=
  match res with
  | JObj d =>
      if forallb (λ k, bool_decide (is_Some (d !! k))) required
      then
        let scores := default JNull (d !! "scores") in
        let? avg := recalculated_average pos scores in
        Ok {| scores := match scores with JObj sc => sc | _ => ∅ end;
              average := avg;
              verdict := enforced_verdict avg;
              issues := default JNull (d !! "issues");
              improved_version := default JNull (d !! "improved_version") |}
      else Raise (ValueError ("Missing keys in QA response: " +:+ keys_repr d))
  | _ => Raise (AttributeError res "keys")
  end.

(** One pass through the [try] block, as the [calls]-th oracle call. *)
Definition try_once (pr : prompt) (calls : nat) : result qa :=
  let? res := oracle calls pr in validate_and_score (position calls) res.

(** The [for attempt in range(retries + 1)] loop over the attempts still
    to make; [calls] counts the oracle calls of the run. *)
Fixpoint attempts (retries : nat) (todo : list nat) (pr : prompt) (calls : nat)
  : result (option qa) * nat :=
  match todo with
  | [] => (Ok None, calls)
  | attempt :: rest =>
      match try_once pr calls with
      | Ok q => (Ok (Some q), S calls)
      | Raise exc =>
          if (attempt <? retries)%nat
          then attempts retries rest pr (S calls)
          else (Raise (RuntimeError
                  ("QA call failed after " +:+ pretty (retries + 1)%nat
                   +:+ " attempts: " +:+ exn_str exc)), S calls)
      end
  end.

Definition call_claude_qa (pr : prompt) (retries : nat) (calls : nat)
  : result (option qa) * nat :=
  attempts retries (seq 0 (retries + 1)) pr calls.

(** *** Applying a result *)

(** A row of [sprintai_qa_log]. *)
Record log_row := {
  log_client_id : string;
  log_calendar_id : string;
  log_platform : string;
  score_hook : option json;
  score_local : option json;
  score_value : option json;
  score_cta : option json;
  score_platform : option json;
  score_authenticity : option json;
  score_average : float;
  log_verdict : string;
  log_issues : json;
  was_rewritten : bool;
}.

Record world := {
  calendar : list post;
  qa_log : list log_row;
  oracle_calls : nat;
}.

Definition set_oracle_calls (n : nat) (w : world) : world :=
  {| calendar := calendar w; qa_log := qa_log w; oracle_calls := n |}.

(** [v.strip()]: a method of [str]. *)
Definition strip_method (v : json) : result string :=
  match v with
  | JStr s => Ok (strip s)
  | _ => Raise (AttributeError v "strip")
  end.

(** [update_payload] applied to a row. *)
Definition qa_update (avg : float) (rewritten : bool) (new_text : string)
    (p : post) : post :=
  {| id := id p; client_id := client_id p; platform := platform p;
     post_text := if rewritten then new_text else post_text p;
     image_url := image_url p; scheduled_at := scheduled_at p;
     status := "pending"; status_prev := Some "draft";
     qa_score := Some avg; qa_rewritten := Some rewritten |}.

Definition apply_qa_result (p : post) (q : qa) (dry_run : bool) (w : world)
  : result unit * world :=
  match
    (let? rewritten :=
       if String.eqb (verdict q) "REWRITE"
       then let? s := strip_method (improved_version q) in
            Ok (negb (String.eqb s ""))
       else Ok false in
     let? new_text :=
       if rewritten then strip_method (improved_version q)
       else Ok (post_text p) in
     Ok (rewritten, new_text))
  with
  | Raise e => (Raise e, w)
  | Ok (rewritten, new_text) =>
      if dry_run then (Ok tt, w)
      else
        (Ok tt,
         {| calendar :=
              update_by_id (id p) (qa_update (average q) rewritten new_text)
                (calendar w);
            qa_log := qa_log w ++
              [{| log_client_id := client_id p;
                  log_calendar_id := id p;
                  log_platform := platform p;
                  score_hook := scores q !! "hook_strength";
                  score_local := scores q !! "local_specificity";
                  score_value := scores q !! "value_delivery";
                  score_cta := scores q !! "cta_clarity";
                  score_platform := scores q !! "platform_fit";
                  score_authenticity := scores q !! "authenticity";
                  score_average := average q;
                  log_verdict := verdict q;
                  log_issues := issues q;
                  was_rewritten := rewritten |}];
            oracle_calls := oracle_calls w |})
  end.

(** *** The review loop of [main] *)

Record report := {
  results : list (post * qa);
  approved_count : nat;
  rewritten_count : nat;
  total_score : float;
}.

Definition is_str (v : json) : bool :=
  match v with JStr _ => true | _ => false end.

(** Whether evaluating [issues_str] raises: a truthy [issues] is sliced and
    joined. *)
Definition issues_str_check (q : qa) : result unit :=
  if truthy (issues q) then
    match issues q with
    | JStr _ => Ok tt
    | JArr l =>
        match filter (λ v, is_str v = false) (take 2 l) with
        | [] => Ok tt
        | v :: _ => Raise (TypeError v)
        end
    | v => Raise (TypeError v)
    end
  else Ok tt.

(** Whether evaluating [rewrite_preview] raises: a truthy
    [improved_version] is sliced and its newlines replaced. *)
Definition rewrite_preview_check (q : qa) : result unit :=
  if truthy (improved_version q) then
    match improved_version q with
    | JStr _ => Ok tt
    | JArr l => Raise (AttributeError (JArr (take 60 l)) "replace")
    | v => Raise (TypeError v)
    end
  else Ok tt.

(** The body of the [for i, post in enumerate(posts, 1)] loop: the next
    store and report, or the exception that ends [main]. *)
Definition review_post (dry_run : bool) (client : gmap string json)
    (rubric : string) (p : post) (w : world) (rep : report)
  : result report * world :=
  let pr := build_qa_prompt p client rubric in
  match call_claude_qa pr 2 (oracle_calls w) with
  | (Raise _, n) => (Ok rep, set_oracle_calls n w)
  | (Ok None, n) => (Raise (TypeError JNull), set_oracle_calls n w)
  | (Ok (Some q), n) =>
      let w1 := set_oracle_calls n w in
      match
        (let? _ := issues_str_check q in
         if String.eqb (verdict q) "APPROVED" then Ok tt
         else rewrite_preview_check q)
      with
      | Raise e => (Raise e, w1)
      | Ok _ =>
          match apply_qa_result p q dry_run w1 with
          | (Raise e, w2) => (Raise e, w2)
          | (Ok _, w2) =>
              (Ok {| results := results rep ++ [(p, q)];
                     approved_count :=
                       if String.eqb (verdict q) "APPROVED"
                       then S (approved_count rep) else approved_count rep;
                     rewritten_count :=
                       if String.eqb (verdict q) "APPROVED"
                       then rewritten_count rep else S (rewritten_count rep);
                     total_score := fadd (total_score rep) (average q) |}, w2)
          end
      end
  end.

Fixpoint review_loop (dry_run : bool) (client : gmap string json)
    (rubric : string) (posts : list post) (w : world) (rep : report)
  : result report * world :=
  match posts with
  | [] => (Ok rep, w)
  | p :: rest =>
      match review_post dry_run client rubric p w rep with
      | (Ok rep', w') => review_loop dry_run client rubric rest w' rep'
      | (Raise e, w') => (Raise e, w')
      end
  end.

End WithOracle.

End ContentQA.

(** ** Sample data for the concrete runs below *)

Module Scenarios.
Import PostScheduler.

Definition draft (i plat text : string) (img : option string) : post :=
  {| id := i; client_id := "acme"; platform := plat; post_text := text;
     image_url := img; scheduled_at := 100; status := "draft";
     status_prev := None; qa_score := None; qa_rewritten := None |}.

Definition pending (i plat text : string) (img : option string) : post :=
  set_status "pending" (draft i plat text img).

Definition link (plat page : string) : connection :=
  {| conn_client_id := "acme"; conn_platform := plat; page_id := page;
     access_token := "tok" |}.

Definition store (cal : list post) : world :=
  {| calendar := cal;
     connections := [link "facebook" "page1"; link "instagram" "ig1";
                     link "google_business" "accounts/1/locations/2"];
     sprintai_posts := []; sent := [] |}.

Definition ok200 (d : list (string * json)) : result response :=
  Ok {| status_code := 200; r_json := Ok (JObj (list_to_map d)) |}.

(** Every request succeeds with the same JSON object. *)
Definition always (d : list (string * json)) : nat → request → result response :=
  λ _ _, ok200 d.

(** The second request of the run times out. *)
Definition second_times_out : nat → request → result response :=
  λ n _, if (n =? 1)%nat then Raise (RequestException "Read timed out.")
         else ok200 [("id", JStr "ext")].

(** Every request is refused. *)
Definition always_refused : nat → request → result response :=
  λ _ _, Raise (RequestException "Connection refused.").

Definition google_env : gmap string string :=
  list_to_map [("GOOGLE_CLIENT_ID", "cid"); ("GOOGLE_CLIENT_SECRET", "secret")].

(** The token endpoint answers with a token, the local-post endpoint with an
    object that has no [name]. *)
Definition google_net : nat → request → result response :=
  λ n _, if (n =? 0)%nat then ok200 [("access_token", JStr "ya29")]
         else ok200 [("state", JStr "LIVE")].

Definition text_of (e : exn) : string :=
  match e with
  | ValueError m | RuntimeError m | RequestException m => m
  | KeyError k => "'" +:+ k +:+ "'"
  | _ => "error"
  end.

Definition fb_hello : post := pending "fb-1" "facebook" "hello" None.
Definition fb_page : connection := link "facebook" "page1".
Definition ig_no_image : post := pending "ig-2" "instagram" "e" None.
Definition ig_page : connection := link "instagram" "ig1".
Definition gb_post : post := pending "gb-1" "google_business" "open late" None.
Definition gb_page : connection :=
  link "google_business" "accounts/1/locations/2".
Definition tweet : post := pending "tw-1" "twitter" "hi" None.
Definition both_ids : list (string * json) :=
  [("post_id", JStr "1_2"); ("id", JStr "2")].

(** Three Facebook posts and two Instagram posts, one without an image. *)
Definition five_posts : list post :=
  [pending "fb-1" "facebook" "a" None;
   pending "fb-2" "facebook" "b" None;
   pending "fb-3" "facebook" "c" None;
   pending "ig-1" "instagram" "d" (Some "https://img/1.png");
   pending "ig-2" "instagram" "e" None].

(** *** The quality gate *)

Definition six (a b c d e f : Z) : gmap string json :=
  list_to_map [("hook_strength", JInt a); ("local_specificity", JInt b);
               ("value_delivery", JInt c); ("cta_clarity", JInt d);
               ("platform_fit", JInt e); ("authenticity", JInt f)].

(** An oracle answer: the scores, what the oracle claims about them, and
    its improved text. *)
Definition answer (sc : gmap string json) (avg : json) (v : string)
    (improved : string) : gmap string json :=
  list_to_map [("scores", JObj sc); ("average", avg); ("verdict", JStr v);
               ("issues", JArr [JStr "generic opener"]);
               ("improved_version", JStr improved)].

(** Mean 6.83..., announced as 9 and APPROVED. *)
Definition flattering : gmap string json :=
  answer (six 6 7 7 7 7 7) (JInt 9) "APPROVED" "".

(** A weak post whose improved text is a single space. *)
Definition blank_rewrite : gmap string json :=
  answer (six 5 5 5 5 5 5) (JInt 5) "REWRITE" " ".

(** A weak post with a usable improved text. *)
Definition real_rewrite : gmap string json :=
  answer (six 5 5 5 5 5 5) (JInt 5) "REWRITE" "  Is your AC ready for July?  ".

(** What the gate makes of the two weak answers. *)
Definition rewrite_qa (improved : string) : ContentQA.qa :=
  {| ContentQA.scores := six 5 5 5 5 5 5; ContentQA.average := tenths 50;
     ContentQA.verdict := "REWRITE";
     ContentQA.issues := JArr [JStr "generic opener"];
     ContentQA.improved_version := JStr improved |}.

Definition keys_text : gmap string json → string := λ _, "dict_keys([...])".

(** Every answer lists its scores in the order of the prompt. *)
Definition as_prompted : nat → string → nat :=
  λ _ k, default 6%nat
           (fst <$> list_find (String.eqb k)
              ["hook_strength"; "local_specificity"; "value_delivery";
               "cta_clarity"; "platform_fit"; "authenticity"]).

Definition weak_draft : post := draft "cal-1" "facebook" "We pride ourselves." None.
Definition next_draft : post := draft "cal-2" "instagram" "Stay cool." None.

Definition qa_store (cal : list post) : ContentQA.world :=
  {| ContentQA.calendar := cal; ContentQA.qa_log := [];
     ContentQA.oracle_calls := 0 |}.

Definition no_report : ContentQA.report :=
  {| ContentQA.results := []; ContentQA.approved_count := 0;
     ContentQA.rewritten_count := 0;
     ContentQA.total_score := S754_zero false |}.

(** The oracle is down for the first three calls, then answers. *)
Definition down_three_times : nat → ContentQA.prompt → result json :=
  λ n _, if (n <? 3)%nat then Raise (RequestException "Read timed out.")
         else Ok (JObj real_rewrite).

Definition acme : gmap string json :=
  list_to_map [("name", JStr "Acme Air"); ("city", JStr "Tulsa")].

End Scenarios.

(** ** content_generator.py: the rows it writes *)

Module ContentGenerator.

(** The row [main] builds for one generated text and one posting slot;
    [new_id] is the id the table gives it on insert, and the columns the
    row does not name are null. *)
Definition new_row (cid plat text : string) (slot : Z) (new_id : string)
  : post :=
  {| id := new_id; client_id := cid; platform := plat; post_text := text;
     image_url := None; scheduled_at := slot; status := "draft";
     status_prev := None; qa_score := None; qa_rewritten := None |}.

End ContentGenerator.

(** ** Derived notions for the properties of the rest of the code *)

Module Derived.
Import PostScheduler.

(** What one exchange yields once [r.raise_for_status()] and [r.json()]
    have run on the answer [a] to the request [rq]. *)
Definition json_of_answer (rq : request) (a : result response) : result json :=
  match a with
  | Raise e => Raise e
  | Ok r =>
      if (400 <=? status_code r) && (status_code r <? 600)
      then Raise (HTTPError (status_code r) (url rq))
      else r_json r
  end.

(** A post that [get_pending_posts] selects at [now]. *)
Definition due (now : Z) (p : post) : Prop :=
  status p = "pending" ∧ scheduled_at p ≤ now.

(** How a run may change one calendar row: not at all, or, for a due
    pending row, by setting its status to posted or failed. *)
Definition moved (now : Z) (r r' : post) : Prop :=
  r' = r ∨
  (due now r ∧ (r' = set_status "posted" r ∨ r' = set_status "failed" r)).

(** The platforms [PLATFORM_HANDLERS] knows. *)
Definition known_platforms : list string :=
  ["facebook"; "instagram"; "google_business"].

(** How the successive turns of the loop over [l] end, from the store [w]. *)
Fixpoint outcomes (net : nat → request → result response)
    (environ : gmap string string) (exn_str : exn → string) (now : Z)
    (l : list post) (w : world) : list outcome :=
  match l with
  | [] => []
  | p :: rest =>
      (dispatch_post net environ exn_str now p w).2
      :: outcomes net environ exn_str now rest
           (dispatch_post net environ exn_str now p w).1
  end.

Definition is_posted (o : outcome) : bool :=
  match o with Posted _ => true | _ => false end.
Definition is_failed (o : outcome) : bool :=
  match o with Failed _ => true | _ => false end.
Definition is_skipped (o : outcome) : bool :=
  match o with Skipped => true | _ => false end.

(** The number of turns that ended as [f] says. *)
Definition count (f : outcome → bool) (outs : list outcome) : nat :=
  length (List.filter f outs).

(** A value [sum] can add: an [int] (or a [bool]) or a [float]. *)
Definition summable (v : json) : Prop :=
  match v with JInt _ | JBool _ | JFloat _ => True | _ => False end.

(** [round(s / n, 1)] for two [int]s. *)
Definition mean_to_one_decimal (n s : Z) : result float :=
  let? m := true_div (NInt s) n in Ok (round1 m).


(** What the floating-point computation makes of a total [s] of six
    scores: checked against the exact tenth, and against the threshold. *)
Definition six_checked (s : Z) : bool :=
  let t := round_half_even (10 * s) 6 in
  match mean_to_one_decimal 6 s with
  | Ok x => float_eqb x (tenths t)
            && Bool.eqb (fle ContentQA.APPROVAL_THRESHOLD x) (70 <=? t)
  | Raise _ => false
  end.

(** The tenth that the float computed for [n] scores of total [s]
    denotes: one of the two tenths around the mean. *)
Definition tenth_of (n s : Z) : Z :=
  let below := 10 * s / n in
  match mean_to_one_decimal n s with
  | Ok x => if float_eqb x (tenths below) then below else below + 1
  | Raise _ => below
  end.

(** What is checked for [n] scores of total [s]: the float computed is
    the one its tenth denotes, the tenth is within half a tenth of the
    mean and not below the tenth of the total before, and the float
    reaches the threshold exactly when the tenth is at least 70. *)
Definition scale_checked (n s : Z) : bool :=
  let t := tenth_of n s in
  match mean_to_one_decimal n s with
  | Ok x => float_eqb x (tenths t)
            && (2 * Z.abs (10 * s - n * t) <=? n)
            && (tenth_of n (s - 1) <=? t)
            && Bool.eqb (fle ContentQA.APPROVAL_THRESHOLD x) (70 <=? t)
  | Raise _ => false
  end.

(** How [apply_qa_result] decides the rewritten flag [rw] and the new
    text [txt] from a result [q]. *)
Definition rewrite_decided (q : ContentQA.qa) (rw : bool) (txt : string)
  : Prop :=
  (rw = true ∧ ContentQA.verdict q = "REWRITE" ∧
   ∃ s, ContentQA.improved_version q = JStr s ∧ strip s ≠ "" ∧ txt = strip s) ∨
  (rw = false ∧
   ¬ (ContentQA.verdict q = "REWRITE" ∧
      ∃ s, ContentQA.improved_version q = JStr s ∧ strip s ≠ "")).

End Derived.

Module MoreScenarios.
Import PostScheduler.

(** Every request is answered with the status [st] and an empty object. *)
Definition answers_with (st : Z) : nat → request → result response :=
  λ _ _, Ok {| status_code := st; r_json := Ok (JObj ∅) |}.

(** The first request is answered with [d1], the later ones with [d2]. *)
Definition first_then (d1 d2 : list (string * json))
  : nat → request → result response :=
  λ n _, if (n =? 0)%nat then Scenarios.ok200 d1 else Scenarios.ok200 d2.

Definition ig_with_image : post :=
  Scenarios.pending "ig-1" "instagram" "d" (Some "https://img/1.png").

(** A pending post that is due at 900. *)
Definition late_post : post :=
  {| id := "late-1"; client_id := "acme"; platform := "facebook";
     post_text := "y"; image_url := None; scheduled_at := 900;
     status := "pending"; status_prev := None; qa_score := None;
     qa_rewritten := None |}.

(** A calendar with a posted, a due pending and a not yet due row. *)
Definition mixed_calendar : list post :=
  [set_status "posted" (Scenarios.draft "old-1" "facebook" "x" None);
   Scenarios.fb_hello; late_post].

Definition review_prompt : ContentQA.prompt :=
  ContentQA.build_qa_prompt Scenarios.weak_draft Scenarios.acme "rubric".

Definition july : string := "  Is your AC ready for July?  ".

(** What the gate makes of the answer of [null_rewrite]. *)
Definition null_qa : ContentQA.qa :=
  {| ContentQA.scores := Scenarios.six 5 5 5 5 5 5;
     ContentQA.average := tenths 50;
     ContentQA.verdict := "REWRITE";
     ContentQA.issues := JArr [JStr "generic opener"];
     ContentQA.improved_version := JNull |}.

(** The report after one rewritten post. *)
Definition one_rewritten : ContentQA.report :=
  {| ContentQA.results := [(Scenarios.weak_draft, Scenarios.rewrite_qa july)];
     ContentQA.approved_count := 0; ContentQA.rewritten_count := 1;
     ContentQA.total_score := tenths 50 |}.

(** The oracle fails once, then answers. *)
Definition down_once : nat → ContentQA.prompt → result json :=
  λ n _, if (n <? 1)%nat then Raise (RequestException "Read timed out.")
         else Ok (JObj Scenarios.real_rewrite).



(** The oracle never answers. *)
Definition always_down : nat → ContentQA.prompt → result json :=
  λ _ _, Raise (RequestException "Read timed out.").

(** The oracle asks for a rewrite and sends null as the improved text. *)
Definition null_rewrite : nat → ContentQA.prompt → result json :=
  λ _ _, Ok (JObj (<["improved_version" := JNull]> Scenarios.real_rewrite)).

(** The oracle approves. *)
Definition approving : nat → ContentQA.prompt → result json :=
  λ _ _, Ok (JObj (Scenarios.answer (Scenarios.six 8 8 8 8 8 8) (JInt 8)
                     "APPROVED" "")).

Definition approved_qa : ContentQA.qa :=
  {| ContentQA.scores := Scenarios.six 8 8 8 8 8 8;
     ContentQA.average := tenths 80;
     ContentQA.verdict := "APPROVED";
     ContentQA.issues := JArr [JStr "generic opener"];
     ContentQA.improved_version := JStr "" |}.

Definition fresh_facebook : post :=
  ContentGenerator.new_row "acme" "facebook" "Beat the heat." 100 "cal-9".

(** The report after the approval of [fresh_facebook]. *)
Definition one_approved : ContentQA.report :=
  {| ContentQA.results := [(fresh_facebook, approved_qa)];
     ContentQA.approved_count := 1; ContentQA.rewritten_count := 0;
     ContentQA.total_score := tenths 80 |}.

End MoreScenarios.

(** ** Properties of the platform adapters *)

Module AdapterFacts.
Import PostScheduler.

Section WithEnvironment.

Variable net : nat → request → result response.
Variable environ : gmap string string.

Lemma raise_for_status_2xx rq r sent :
  200 ≤ status_code r < 300 →
  raise_for_status rq r sent = (Ok tt, sent).
Proof.
  intros [Hlo Hhi]. unfold raise_for_status.
  destruct (400 <=? status_code r) eqn:E; [|reflexivity].
  apply Z.leb_le in E. lia.
Qed.

Lemma requests_post_eq rq sent :
  requests_post net rq sent = (net (length sent) rq, sent ++ [rq]).
Proof. reflexivity. Qed.

Lemma length_snoc {A} (l : list A) (x : A) : length (l ++ [x]) = S (length l).
Proof. rewrite length_app. simpl. lia. Qed.

(** C5 (as the code has it): on a 2xx answer whose body is a JSON object,
    [post_facebook] returns the [post_id] field when it is present and
    truthy, otherwise the [id] field when it is present, otherwise the
    literal ["unknown"]; it never raises there, and exactly one request
    has been sent. *)
Theorem post_facebook_returned_id (p : post) (c : connection)
    (sent : list request) (resp : response) (data : gmap string json) :
  net (length sent) (facebook_request p c) = Ok resp →
  200 ≤ status_code resp < 300 →
  r_json resp = Ok (JObj data) →
  ∃ v, post_facebook net p c sent = (Ok v, sent ++ [facebook_request p c]) ∧
       (∀ a, data !! "post_id" = Some a → truthy a = true → v = a) ∧
       (¬ (∃ a, data !! "post_id" = Some a ∧ truthy a = true) →
        ∀ b, data !! "id" = Some b → v = b) ∧
       (¬ (∃ a, data !! "post_id" = Some a ∧ truthy a = true) →
        data !! "id" = None → v = JStr "unknown").
Proof.
  intros Hnet Hst Hjson.
  unfold post_facebook, bind, lift. rewrite requests_post_eq, Hnet.
  rewrite (raise_for_status_2xx _ _ _ Hst), Hjson. simpl.
  destruct (data !! "post_id") as [a|] eqn:Ea; simpl.
  - destruct (truthy a) eqn:Ta.
    + exists a. unfold ret. split; [reflexivity|].
      split; [intros a' [= ->] _; reflexivity|].
      split; intros Hno; exfalso; apply Hno; eauto.
    + exists (default (JStr "unknown") (data !! "id")).
      split; [reflexivity|]. split; [intros a' [= <-]; congruence|].
      split; [intros _ b ->; reflexivity | intros _ ->; reflexivity].
  - exists (default (JStr "unknown") (data !! "id")).
    split; [reflexivity|]. split; [intros a' [=]|].
    split; [intros _ b ->; reflexivity | intros _ ->; reflexivity].
Qed.

(** C6: without an image ([image_url] null or empty) [post_instagram]
    raises its missing-image error before any request is made: the log of
    sent requests is unchanged, so neither the media-container step nor
    the publish step is attempted, whatever the network would answer. *)
Theorem post_instagram_requires_image (p : post) (c : connection)
    (sent : list request) :
  image_url p = None ∨ image_url p = Some "" →
  post_instagram net p c sent =
    (Raise (ValueError "Instagram posts require an image_url."), sent).
Proof.
  intros [H|H]; unfold post_instagram; rewrite H; reflexivity.
Qed.

(** C10: when the token exchange succeeds and the local-post call answers
    2xx with a JSON object that has no [name] field, [post_google_business]
    returns the literal string ["unknown"] and does not raise. *)
Theorem post_google_business_unknown (p : post) (c : connection)
    (sent : list request) (cid secret : string) (r1 r2 : response)
    (d1 d2 : gmap string json) (tok : json) :
  environ !! "GOOGLE_CLIENT_ID" = Some cid →
  environ !! "GOOGLE_CLIENT_SECRET" = Some secret →
  net (length sent) (google_token_request (access_token c) cid secret) = Ok r1 →
  200 ≤ status_code r1 < 300 →
  r_json r1 = Ok (JObj d1) →
  d1 !! "access_token" = Some tok →
  net (S (length sent)) (google_post_request tok p c) = Ok r2 →
  200 ≤ status_code r2 < 300 →
  r_json r2 = Ok (JObj d2) →
  d2 !! "name" = None →
  post_google_business net environ p c sent =
    (Ok (JStr "unknown"),
     sent ++ [google_token_request (access_token c) cid secret;
              google_post_request tok p c]).
Proof.
  intros Hcid Hsec Hn1 Hs1 Hj1 Htok Hn2 Hs2 Hj2 Hname.
  unfold post_google_business, refresh_google_token, getenv, bind, lift, ret.
  rewrite Hcid, Hsec, requests_post_eq, Hn1.
  rewrite (raise_for_status_2xx _ _ _ Hs1), Hj1. simpl. rewrite Htok.
  rewrite length_snoc, Hn2.
  rewrite (raise_for_status_2xx _ _ _ Hs2), Hj2. simpl. rewrite Hname. simpl.
  rewrite <- app_assoc. reflexivity.
Qed.

End WithEnvironment.

(** C5 as stated fails: a 200 answer with neither [post_id] nor [id] makes
    [post_facebook] return ["unknown"]; nothing is raised. *)
Lemma post_facebook_no_id_not_an_error :
  post_facebook (Scenarios.always []) Scenarios.fb_hello Scenarios.fb_page [] =
    (Ok (JStr "unknown"),
     [facebook_request Scenarios.fb_hello Scenarios.fb_page]) ∧
  ¬ ∃ e, (post_facebook (Scenarios.always []) Scenarios.fb_hello
            Scenarios.fb_page []).1 = Raise e.
Proof.
  split; [vm_compute; reflexivity|].
  intros [e He]. vm_compute in He. discriminate.
Qed.

Lemma post_facebook_returned_id_witness :
  ∃ v, post_facebook (Scenarios.always Scenarios.both_ids)
         Scenarios.fb_hello Scenarios.fb_page [] =
         (Ok v, [facebook_request Scenarios.fb_hello Scenarios.fb_page]) ∧
       v = JStr "1_2".
Proof.
  destruct (post_facebook_returned_id
              (Scenarios.always Scenarios.both_ids)
              Scenarios.fb_hello Scenarios.fb_page []
              {| status_code := 200;
                 r_json := Ok (JObj (list_to_map Scenarios.both_ids)) |}
              (list_to_map Scenarios.both_ids)
              eq_refl ltac:(simpl; lia) eq_refl) as (v & Hv & Hpost & _).
  exists v. split; [exact Hv|]. apply Hpost; reflexivity.
Defined.

Lemma post_instagram_requires_image_witness :
  post_instagram Scenarios.second_times_out Scenarios.ig_no_image
    Scenarios.ig_page [] =
    (Raise (ValueError "Instagram posts require an image_url."), []).
Proof.
  apply (post_instagram_requires_image Scenarios.second_times_out
           Scenarios.ig_no_image Scenarios.ig_page []).
  left. reflexivity.
Defined.

Lemma post_google_business_unknown_witness :
  (post_google_business Scenarios.google_net Scenarios.google_env
     Scenarios.gb_post Scenarios.gb_page []).1 = Ok (JStr "unknown").
Proof.
  rewrite (post_google_business_unknown Scenarios.google_net
             Scenarios.google_env Scenarios.gb_post Scenarios.gb_page []
             "cid" "secret"
             {| status_code := 200;
                r_json := Ok (JObj (list_to_map [("access_token", JStr "ya29")])) |}
             {| status_code := 200;
                r_json := Ok (JObj (list_to_map [("state", JStr "LIVE")])) |}
             (list_to_map [("access_token", JStr "ya29")])
             (list_to_map [("state", JStr "LIVE")])
             (JStr "ya29")
             eq_refl eq_refl eq_refl ltac:(simpl; lia) eq_refl eq_refl
             eq_refl ltac:(simpl; lia) eq_refl eq_refl).
  reflexivity.
Defined.

End AdapterFacts.

(** ** Properties of the dispatcher loop *)

Module DispatcherFacts.
Import PostScheduler Derived.

Lemma set_status_id s p : id (set_status s p) = id p.
Proof. reflexivity. Qed.

Lemma update_by_id_ids i s cal :
  id <$> update_by_id i (set_status s) cal = id <$> cal.
Proof.
  unfold update_by_id. rewrite <- list_fmap_compose.
  apply list_fmap_ext. intros _ p _. simpl. destruct (String.eqb (id p) i); reflexivity.
Qed.

Lemma elem_of_update_by_id i s row cal :
  row ∈ update_by_id i (set_status s) cal ↔
  (id row ≠ i ∧ row ∈ cal) ∨
  (id row = i ∧ ∃ r0, r0 ∈ cal ∧ row = set_status s r0).
Proof.
  unfold update_by_id. rewrite list_elem_of_fmap. split.
  - intros (y & -> & Hy). destruct (String.eqb (id y) i) eqn:E.
    + apply String.eqb_eq in E. right. split; [exact E | eauto].
    + apply String.eqb_neq in E. left. auto.
  - intros [[Hne Hin] | [Heq (r0 & Hin & ->)]].
    + exists row. apply String.eqb_neq in Hne. rewrite Hne. auto.
    + exists r0. simpl in Heq. apply String.eqb_eq in Heq. rewrite Heq. auto.
Qed.

Lemma recorded_ids o i cal : id <$> recorded o i cal = id <$> cal.
Proof. destruct o; simpl; auto using update_by_id_ids. Qed.

Lemma recorded_other o i row cal :
  id row ≠ i → (row ∈ recorded o i cal ↔ row ∈ cal).
Proof.
  intros Hne. destruct o; simpl; try reflexivity;
    rewrite elem_of_update_by_id; intuition.
Qed.

Lemma recorded_settled o q cal : settled o q cal (recorded o (id q) cal).
Proof.
  destruct o; simpl.
  - intros row Hin Hid. apply elem_of_update_by_id in Hin.
    destruct Hin as [[Hne _] | [_ (r0 & _ & ->)]]; [congruence | reflexivity].
  - intros row Hin Hid. apply elem_of_update_by_id in Hin.
    destruct Hin as [[Hne _] | [_ (r0 & _ & ->)]]; [congruence | reflexivity].
  - reflexivity.
Qed.

(** [settled] only looks at the rows of [q]. *)
Lemma settled_frame o q b1 b2 a1 a2 :
  (∀ row, id row = id q → (row ∈ b2 ↔ row ∈ b1)) →
  (∀ row, id row = id q → (row ∈ a2 ↔ row ∈ a1)) →
  settled o q b1 a1 → settled o q b2 a2.
Proof.
  intros Hb Ha. destruct o; simpl.
  - intros H row Hin Hid. apply H; [apply Ha|]; assumption.
  - intros H row Hin Hid. apply H; [apply Ha|]; assumption.
  - intros H row Hid. rewrite (Ha row Hid), (Hb row Hid). apply H, Hid.
Qed.

Lemma str_prefix_length n s :
  String.length (str_prefix n s) = Nat.min n (String.length s).
Proof.
  unfold str_prefix. revert s.
  induction n as [|n IH]; intros [|c s]; simpl; try reflexivity.
  rewrite IH. reflexivity.
Qed.

Lemma str_prefix_is_prefix n s : ∃ rest, s = str_prefix n s +:+ rest.
Proof.
  unfold str_prefix. revert s.
  induction n as [|n IH]; intros [|c s]; simpl.
  - exists "". reflexivity.
  - exists (String c s). reflexivity.
  - exists "". reflexivity.
  - destruct (IH s) as [rest Hrest]. exists rest.
    change (String c s = String c (substring 0 n s +:+ rest)). congruence.
Qed.

Lemma rows_for_snoc i log r :
  rows_for i (log ++ [r]) =
  (rows_for i log + if decide (calendar_id r = i) then 1 else 0)%nat.
Proof.
  unfold rows_for. rewrite filter_app, length_app. f_equal.
  rewrite filter_cons, filter_nil. destruct (decide (calendar_id r = i)); reflexivity.
Qed.

Section WithEnvironment.

Variable net : nat → request → result response.
Variable environ : gmap string string.
Variable exn_str : exn → string.

Local Abbreviation handler_of := (handler_for net environ).
Local Abbreviation step := (dispatch_post net environ exn_str).
Local Abbreviation loop := (dispatch_loop net environ exn_str).
Local Abbreviation run := (run net environ exn_str).
Local Abbreviation after_call := (after_handler_call net environ).

(** The loop body is the handler call followed by the recording of its
    result; the handler call leaves both tables as they were. *)
Lemma dispatch_post_after_call now p w r w1 :
  after_call p w = Some (r, w1) →
  calendar w1 = calendar w ∧ sprintai_posts w1 = sprintai_posts w ∧
  step now p w =
    match r with
    | Ok ext =>
        (mark_posted now (id p) (client_id p) (platform p) ext w1, Posted ext)
    | Raise e =>
        (mark_failed (id p) (client_id p) (platform p) (exn_str e) w1,
         Failed (exn_str e))
    end.
Proof.
  unfold after_handler_call, dispatch_post.
  destruct (handler_of (platform p)) as [h|]; [|discriminate].
  destruct (get_connection w (client_id p) (platform p)) as [c|]; [|discriminate].
  destruct (h p c (sent w)) as [[ext|e] sent']; intros [= <- <-]; auto.
Qed.

Lemma dispatch_post_calendar now p w :
  calendar (step now p w).1 = recorded (step now p w).2 (id p) (calendar w).
Proof.
  unfold dispatch_post.
  destruct (handler_of (platform p)) as [h|]; [|reflexivity].
  destruct (get_connection w (client_id p) (platform p)) as [c|]; [|reflexivity].
  destruct (h p c (sent w)) as [[ext|e] sent']; reflexivity.
Qed.

Lemma dispatch_post_skipped now p w :
  (step now p w).2 = Skipped ↔ handler_of (platform p) = None.
Proof.
  unfold dispatch_post.
  destruct (handler_of (platform p)) as [h|]; [|tauto].
  destruct (get_connection w (client_id p) (platform p)) as [c|];
    [|split; discriminate].
  destruct (h p c (sent w)) as [[ext|e] sent']; split; discriminate.
Qed.

Lemma dispatch_post_rows now p w i :
  rows_for i (sprintai_posts (step now p w).1) =
  (rows_for i (sprintai_posts w) +
   if decide (id p = i) then
     match handler_of (platform p) with Some _ => 1 | None => 0 end
   else 0)%nat.
Proof.
  unfold dispatch_post.
  destruct (handler_of (platform p)) as [h|]; simpl.
  - destruct (get_connection w (client_id p) (platform p)) as [c|]; simpl.
    + destruct (h p c (sent w)) as [[ext|e] sent']; simpl;
        rewrite rows_for_snoc; reflexivity.
    + rewrite rows_for_snoc. reflexivity.
  - destruct (decide (id p = i)); lia.
Qed.

Lemma dispatch_loop_cons now p rest w c :
  loop now (p :: rest) w c =
  loop now rest (step now p w).1 (tally (step now p w).2 c).
Proof. simpl. destruct (step now p w). reflexivity. Qed.

Lemma dispatch_loop_app now l1 l2 w c :
  loop now (l1 ++ l2) w c =
  loop now l2 (loop now l1 w c).1 (loop now l1 w c).2.
Proof.
  revert w c. induction l1 as [|p l1 IH]; intros w c; [reflexivity|].
  rewrite <- app_comm_cons, !dispatch_loop_cons. apply IH.
Qed.

Lemma dispatch_loop_counts now l w c :
  let c' := (loop now l w c).2 in
  (success c' + failed c' + skipped c' =
   success c + failed c + skipped c + length l)%nat.
Proof.
  revert w c. induction l as [|p l IH]; intros w c; simpl; [lia|].
  destruct (step now p w) as [w' o]. specialize (IH w' (tally o c)).
  simpl in IH. rewrite IH. destruct o; simpl; lia.
Qed.

Lemma dispatch_loop_ids now l w c :
  id <$> calendar (loop now l w c).1 = id <$> calendar w.
Proof.
  revert w c. induction l as [|p l IH]; intros w c; [reflexivity|].
  rewrite dispatch_loop_cons, IH, dispatch_post_calendar. apply recorded_ids.
Qed.

(** The loop leaves alone the calendar rows of the posts it is not given. *)
Lemma dispatch_loop_other now l w c row :
  id row ∉ id <$> l →
  row ∈ calendar (loop now l w c).1 ↔ row ∈ calendar w.
Proof.
  revert w c. induction l as [|p l IH]; intros w c Hnot; [reflexivity|].
  rewrite fmap_cons, not_elem_of_cons in Hnot. destruct Hnot as [Hne Hnot].
  rewrite dispatch_loop_cons, IH by exact Hnot.
  rewrite dispatch_post_calendar. apply recorded_other. exact Hne.
Qed.

Lemma dispatch_loop_rows_other now l w c i :
  i ∉ id <$> l →
  rows_for i (sprintai_posts (loop now l w c).1) = rows_for i (sprintai_posts w).
Proof.
  revert w c. induction l as [|p l IH]; intros w c Hnot; [reflexivity|].
  rewrite fmap_cons, not_elem_of_cons in Hnot. destruct Hnot as [Hne Hnot].
  rewrite dispatch_loop_cons, IH by exact Hnot.
  rewrite dispatch_post_rows. destruct (decide (id p = i)); [congruence|lia].
Qed.

(** With distinct ids, every post of the batch ends as its own turn
    decided, whatever happened to the posts before and after it. *)
Lemma dispatch_loop_each now l1 q l2 w c :
  NoDup (id <$> l1 ++ q :: l2) →
  settled (step now q (loop now l1 w c).1).2 q (calendar w)
    (calendar (loop now (l1 ++ q :: l2) w c).1).
Proof.
  intros Hnd. rewrite fmap_app, fmap_cons in Hnd.
  apply NoDup_app in Hnd as (_ & Hl1 & Hq).
  apply NoDup_cons in Hq as [Hl2 _].
  assert (id q ∉ id <$> l1) as Hl1'.
  { intros Hin. apply (Hl1 _ Hin). left. }
  rewrite dispatch_loop_app, dispatch_loop_cons.
  set (w1 := (loop now l1 w c).1). set (c1 := (loop now l1 w c).2).
  eapply settled_frame; [| |apply (recorded_settled _ q (calendar w1))].
  - intros row Hid. symmetry. apply dispatch_loop_other. rewrite Hid. exact Hl1'.
  - intros row Hid. rewrite dispatch_loop_other by (rewrite Hid; exact Hl2).
    rewrite dispatch_post_calendar. reflexivity.
Qed.

Lemma run_as_loop now w :
  (run now w).1 = (loop now (get_pending_posts now w) w no_counts).1.
Proof.
  unfold PostScheduler.run.
  destruct (get_pending_posts now w) as [|p l] eqn:E; [reflexivity|].
  destruct (loop now (p :: l) w _) as [w' c']. reflexivity.
Qed.

Lemma pending_ids_distinct now w :
  NoDup (id <$> calendar w) → NoDup (id <$> get_pending_posts now w).
Proof.
  intros Hnd. eapply sublist_NoDup; [exact Hnd|].
  apply fmap_sublist, sublist_filter.
Qed.

Lemma dispatch_loop_world now l w c c' :
  (loop now l w c).1 = (loop now l w c').1.
Proof.
  revert w c c'. induction l as [|p l IH]; intros w c c'; [reflexivity|].
  rewrite !dispatch_loop_cons. apply IH.
Qed.

Lemma outcomes_app now l1 l2 w c :
  outcomes net environ exn_str now (l1 ++ l2) w =
  outcomes net environ exn_str now l1 w ++
  outcomes net environ exn_str now l2 (loop now l1 w c).1.
Proof.
  revert w c. induction l1 as [|p l1 IH]; intros w c; [reflexivity|].
  rewrite <- app_comm_cons, dispatch_loop_cons. cbn [outcomes].
  rewrite <- app_comm_cons. f_equal. apply IH.
Qed.

Lemma outcomes_length now l w :
  length (outcomes net environ exn_str now l w) = length l.
Proof.
  revert w. induction l as [|p l IH]; intros w; [reflexivity|].
  cbn [outcomes length]. rewrite IH. reflexivity.
Qed.

Lemma outcomes_lookup now l1 q l2 w c :
  outcomes net environ exn_str now (l1 ++ q :: l2) w !! length l1 =
  Some (step now q (loop now l1 w c).1).2.
Proof.
  rewrite (outcomes_app now l1 (q :: l2) w c).
  rewrite lookup_app_r by (rewrite outcomes_length; lia).
  rewrite outcomes_length, Nat.sub_diag. reflexivity.
Qed.

(** Each counter grows by the number of turns that ended that way. *)
Lemma dispatch_loop_tally now l w c :
  let c' := (loop now l w c).2 in
  let outs := outcomes net environ exn_str now l w in
  success c' = (success c + count is_posted outs)%nat ∧
  failed c' = (failed c + count is_failed outs)%nat ∧
  skipped c' = (skipped c + count is_skipped outs)%nat.
Proof.
  revert w c. induction l as [|p l IH]; intros w c.
  - cbn. unfold count. cbn. lia.
  - cbn zeta. rewrite dispatch_loop_cons. cbn [outcomes].
    specialize (IH (step now p w).1 (tally (step now p w).2 c)).
    cbn zeta in IH. destruct IH as (Hs & Hf & Hk). rewrite Hs, Hf, Hk.
    unfold count. cbn [List.filter].
    destruct (step now p w).2; cbn; lia.
Qed.

(** C2: an exception raised by the handler of one post of the batch
    (ids distinct) does not end the loop: that turn ends as failed, the
    post is recorded as failed and the loop goes on with the remaining
    posts.  Every post of the batch has a turn; each counter grows by the
    number of turns that ended that way (posted, failed, skipped), so that
    every post is counted once; and every post ends in the calendar as the
    outcome of its own turn says, no calendar row being added or lost. *)
Theorem dispatch_failures_are_isolated (now : Z) (pre : list post) (p : post)
    (suf : list post) (w : world) (c : counts) (h : handler)
    (conn : connection) (e : exn) (sent' : list request) :
  NoDup (id <$> pre ++ p :: suf) →
  handler_of (platform p) = Some h →
  get_connection (loop now pre w c).1 (client_id p) (platform p) = Some conn →
  h p conn (sent (loop now pre w c).1) = (Raise e, sent') →
  let final := loop now (pre ++ p :: suf) w c in
  let outs := outcomes net environ exn_str now (pre ++ p :: suf) w in
  final =
    loop now suf
      (mark_failed (id p) (client_id p) (platform p) (exn_str e)
         (set_sent sent' (loop now pre w c).1))
      (tally (Failed (exn_str e)) (loop now pre w c).2) ∧
  outs !! length pre = Some (Failed (exn_str e)) ∧
  length outs = length (pre ++ p :: suf) ∧
  success final.2 = (success c + count is_posted outs)%nat ∧
  failed final.2 = (failed c + count is_failed outs)%nat ∧
  skipped final.2 = (skipped c + count is_skipped outs)%nat ∧
  (success final.2 + failed final.2 + skipped final.2 =
   success c + failed c + skipped c + length (pre ++ p :: suf))%nat ∧
  (∀ l1 q l2, pre ++ p :: suf = l1 ++ q :: l2 →
     outs !! length l1 = Some (step now q (loop now l1 w c).1).2 ∧
     settled (step now q (loop now l1 w c).1).2 q (calendar w)
       (calendar final.1)) ∧
  id <$> calendar final.1 = id <$> calendar w.
Proof.
  intros Hnd Hh Hconn Hraise final outs.
  assert (step now p (loop now pre w c).1 =
          (mark_failed (id p) (client_id p) (platform p) (exn_str e)
             (set_sent sent' (loop now pre w c).1), Failed (exn_str e))) as Hp.
  { unfold dispatch_post. rewrite Hh, Hconn, Hraise. reflexivity. }
  destruct (dispatch_loop_tally now (pre ++ p :: suf) w c) as (Hs & Hf & Hk).
  split; [|split; [|split; [|split; [|split; [|split; [|split; [|split]]]]]]].
  - unfold final. rewrite dispatch_loop_app, dispatch_loop_cons, Hp. reflexivity.
  - unfold outs. rewrite (outcomes_lookup now pre p suf w c), Hp. reflexivity.
  - apply outcomes_length.
  - exact Hs.
  - exact Hf.
  - exact Hk.
  - apply dispatch_loop_counts.
  - intros l1 q l2 Hsplit. unfold final, outs. rewrite Hsplit in Hnd |- *.
    split; [apply outcomes_lookup | apply dispatch_loop_each; exact Hnd].
  - apply dispatch_loop_ids.
Qed.

(** With distinct ids, a calendar row whose platform has no handler is
    still there after a run, as it was, and no companion row is written
    for it. *)
Lemma unhandled_post_stays now w p :
  NoDup (id <$> calendar w) → p ∈ calendar w →
  handler_of (platform p) = None →
  p ∈ calendar (run now w).1 ∧
  rows_for (id p) (sprintai_posts (run now w).1) =
    rows_for (id p) (sprintai_posts w).
Proof.
  intros Hnd Hin Hh. rewrite run_as_loop.
  pose proof (pending_ids_distinct now w Hnd) as Hnd1.
  destruct (decide (status p = "pending" ∧ scheduled_at p ≤ now)) as [Hd|Hd].
  - assert (p ∈ get_pending_posts now w) as Hp
      by (apply list_elem_of_filter; split; assumption).
    destruct (list_elem_of_split _ _ Hp) as (l1 & l2 & Hsplit).
    rewrite Hsplit in Hnd1 |- *.
    pose proof (dispatch_loop_each now l1 p l2 w no_counts Hnd1) as Hs.
    rewrite (proj2 (dispatch_post_skipped now p (loop now l1 w no_counts).1) Hh)
      in Hs. simpl in Hs.
    split; [apply Hs; [reflexivity | exact Hin]|].
    rewrite fmap_app, fmap_cons in Hnd1.
    apply NoDup_app in Hnd1 as (_ & Hl1 & Hq).
    apply NoDup_cons in Hq as [Hl2 _].
    rewrite dispatch_loop_app, dispatch_loop_cons.
    rewrite dispatch_loop_rows_other by exact Hl2.
    rewrite dispatch_post_rows.
    rewrite dispatch_loop_rows_other by (intros Hin'; apply (Hl1 _ Hin'); left).
    rewrite Hh. destruct (decide (id p = id p)); lia.
  - assert (id p ∉ id <$> get_pending_posts now w) as Hnot.
    { intros Hin'. apply list_elem_of_fmap in Hin' as (q & Hid & Hq).
      apply list_elem_of_filter in Hq as [Hdq Hq].
      apply Hd. replace p with q; [exact Hdq|].
      apply list_elem_of_lookup in Hq as [i Hi].
      apply list_elem_of_lookup in Hin as [k Hk].
      assert (i = k) as ->.
      { eapply NoDup_lookup; [exact Hnd| |];
          rewrite list_lookup_fmap; [rewrite Hi|rewrite Hk]; simpl;
          [reflexivity | congruence]. }
      congruence. }
    split.
    + apply dispatch_loop_other; assumption.
    + apply dispatch_loop_rows_other. exact Hnot.
Qed.

(** C3 (as the code has it): with distinct ids, a post that a run selects
    and whose platform has a handler is selected by no later run, gets
    exactly one companion row in the first run and none in the second, and
    stays posted or failed.  A selected post whose platform has no handler
    is skipped: its row is still in the calendar as it was, after the
    first and after the second run, no companion row is written for it,
    and every run at the same or a later instant selects it again.  The
    status is written only once the handler has returned or raised: during
    the handler call the post is still selected as pending and nothing has
    been recorded. *)
Theorem sequential_dispatch_is_idempotent (now1 now2 : Z) (w : world)
    (p : post) :
  NoDup (id <$> calendar w) →
  p ∈ get_pending_posts now1 w →
  let w1 := (run now1 w).1 in
  let w2 := (run now2 w1).1 in
  (is_Some (handler_of (platform p)) →
   (∀ q, q ∈ get_pending_posts now2 w1 → id q ≠ id p) ∧
   rows_for (id p) (sprintai_posts w1) = S (rows_for (id p) (sprintai_posts w)) ∧
   rows_for (id p) (sprintai_posts w2) = rows_for (id p) (sprintai_posts w1) ∧
   (∀ row, row ∈ calendar w2 → id row = id p →
      status row = "posted" ∨ status row = "failed")) ∧
  (handler_of (platform p) = None →
   p ∈ calendar w1 ∧ p ∈ calendar w2 ∧
   rows_for (id p) (sprintai_posts w1) = rows_for (id p) (sprintai_posts w) ∧
   rows_for (id p) (sprintai_posts w2) = rows_for (id p) (sprintai_posts w) ∧
   (now1 ≤ now2 →
    p ∈ get_pending_posts now2 w1 ∧ p ∈ get_pending_posts now2 w2)) ∧
  (∀ now w0 r w0', after_call p w0 = Some (r, w0') →
     get_pending_posts now w0' = get_pending_posts now w0 ∧
     sprintai_posts w0' = sprintai_posts w0 ∧
     calendar (step now p w0).1 =
       update_by_id (id p)
         (set_status (if is_ok r then "posted" else "failed")) (calendar w0')).
Proof.
  intros Hnd Hp w1 w2.
  pose proof (pending_ids_distinct now1 w Hnd) as Hnd1.
  split; [|split].
  - intros Hh.
    destruct (list_elem_of_split _ _ Hp) as (l1 & l2 & Hsplit).
    rewrite Hsplit in Hnd1.
    assert (∀ row, row ∈ calendar w1 → id row = id p →
              status row = "posted" ∨ status row = "failed") as Hterm.
    { intros row Hin Hid. unfold w1 in Hin. rewrite run_as_loop, Hsplit in Hin.
      pose proof (dispatch_loop_each now1 l1 p l2 w no_counts Hnd1) as Hs.
      destruct (step now1 p (loop now1 l1 w no_counts).1).2 eqn:Ho; simpl in Hs.
      - left. apply Hs; assumption.
      - right. apply Hs; assumption.
      - apply dispatch_post_skipped in Ho. rewrite Ho in Hh.
        destruct Hh as [? [=]]. }
    assert (∀ q, q ∈ get_pending_posts now2 w1 → id q ≠ id p) as Hsel.
    { intros q Hq Hid. apply list_elem_of_filter in Hq as [[Hst _] Hin].
      destruct (Hterm q Hin Hid) as [H|H]; rewrite H in Hst; discriminate. }
    assert (id p ∉ id <$> get_pending_posts now2 w1) as Hnot.
    { intros Hin. apply list_elem_of_fmap in Hin as (q & Hid & Hq).
      apply (Hsel q Hq). congruence. }
    split; [exact Hsel|]. split; [|split].
    + unfold w1. rewrite run_as_loop, Hsplit.
      rewrite fmap_app, fmap_cons in Hnd1.
      apply NoDup_app in Hnd1 as (_ & Hl1 & Hq).
      apply NoDup_cons in Hq as [Hl2 _].
      rewrite dispatch_loop_app, dispatch_loop_cons.
      rewrite dispatch_loop_rows_other by exact Hl2.
      rewrite dispatch_post_rows.
      rewrite dispatch_loop_rows_other by (intros Hin; apply (Hl1 _ Hin); left).
      destruct Hh as [h ->]. rewrite decide_True by reflexivity. lia.
    + unfold w2. rewrite run_as_loop. apply dispatch_loop_rows_other, Hnot.
    + intros row Hin Hid. apply Hterm; [|exact Hid].
      unfold w2 in Hin. rewrite run_as_loop in Hin.
      apply dispatch_loop_other in Hin; [exact Hin|]. rewrite Hid. exact Hnot.
  - intros Hh.
    assert (p ∈ calendar w) as Hin.
    { apply list_elem_of_filter in Hp as [_ Hin]. exact Hin. }
    destruct (unhandled_post_stays now1 w p Hnd Hin Hh) as [Hin1 Hrows1].
    assert (NoDup (id <$> calendar w1)) as Hnd'.
    { unfold w1. rewrite run_as_loop, dispatch_loop_ids. exact Hnd. }
    destruct (unhandled_post_stays now2 w1 p Hnd' Hin1 Hh) as [Hin2 Hrows2].
    split; [exact Hin1|]. split; [exact Hin2|]. split; [exact Hrows1|].
    split; [unfold w2; rewrite Hrows2; exact Hrows1|].
    intros Hle. apply list_elem_of_filter in Hp as [[Hst Hdue] _].
    split; apply list_elem_of_filter; (split; [split; [exact Hst | lia]|]);
      assumption.
  - intros now w0 r w0' Hcall.
    destruct (dispatch_post_after_call now p w0 r w0' Hcall) as (Hcal & Hlog & Hstep).
    split; [|split; [exact Hlog|]].
    + unfold get_pending_posts. rewrite Hcal. reflexivity.
    + rewrite Hstep. destruct r; reflexivity.
Qed.

(** C4 (as the code has it): a post that the loop body ends as posted or
    failed has its calendar row changed in status only, and gets one
    companion row, which never holds both an id and an error.  For a
    posted post the row holds the client, the platform, the posting time
    and, as its external id, the value the handler returned: that value
    itself unless it is null, and nothing when it is null, so that the row
    then holds neither.  For a failed post the row holds the first 2000
    characters of the error text and no id.  A skipped post changes
    nothing. *)
Theorem dispatch_records_id_or_error (now : Z) (p : post) (w : world) :
  let w' := (step now p w).1 in
  match (step now p w).2 with
  | Posted ext =>
      (∃ h c sent', handler_of (platform p) = Some h ∧
         get_connection w (client_id p) (platform p) = Some c ∧
         h p c (sent w) = (Ok ext, sent')) ∧
      calendar w' = update_by_id (id p) (set_status "posted") (calendar w) ∧
      ∃ row, sprintai_posts w' = sprintai_posts w ++ [row] ∧
             calendar_id row = id p ∧ pub_client_id row = client_id p ∧
             pub_platform row = platform p ∧ posted_at row = Some now ∧
             error_message row = None ∧
             (ext ≠ JNull → external_post_id row = Some ext) ∧
             (ext = JNull → external_post_id row = None)
  | Failed err =>
      calendar w' = update_by_id (id p) (set_status "failed") (calendar w) ∧
      sprintai_posts w' = sprintai_posts w ++
        [{| calendar_id := id p; pub_client_id := client_id p;
            pub_platform := platform p; external_post_id := None;
            posted_at := None;
            error_message := Some (str_prefix 2000 err) |}] ∧
      String.length (str_prefix 2000 err) = Nat.min 2000 (String.length err) ∧
      ∃ rest, err = str_prefix 2000 err +:+ rest
  | Skipped => w' = w
  end.
Proof.
  unfold dispatch_post.
  destruct (handler_of (platform p)) as [h|] eqn:Hh; [|reflexivity].
  destruct (get_connection w (client_id p) (platform p)) as [c|] eqn:Hc.
  - destruct (h p c (sent w)) as [[ext|e] sent'] eqn:Hcall; cbn [fst snd].
    + split; [|split]; [eauto 6|reflexivity|].
      eexists. split; [reflexivity|]. cbn.
      split; [reflexivity|]. split; [reflexivity|]. split; [reflexivity|].
      split; [reflexivity|]. split; [reflexivity|].
      split; [intros Hne; destruct ext; try reflexivity; congruence
             | intros ->; reflexivity].
    + split; [reflexivity|]. split; [reflexivity|].
      split; [apply str_prefix_length | apply str_prefix_is_prefix].
  - cbn [fst snd]. split; [reflexivity|]. split; [reflexivity|].
    split; [apply str_prefix_length | apply str_prefix_is_prefix].
Qed.

End WithEnvironment.

Lemma dispatch_failures_are_isolated_witness :
  (PostScheduler.run Scenarios.second_times_out ∅ Scenarios.text_of 200
     (Scenarios.store Scenarios.five_posts)).2 =
    Some {| success := 3; failed := 2; skipped := 0 |} ∧
  status <$> calendar
    (dispatch_loop Scenarios.second_times_out ∅ Scenarios.text_of 200
       Scenarios.five_posts (Scenarios.store Scenarios.five_posts) no_counts).1 =
    ["posted"; "failed"; "posted"; "posted"; "failed"] ∧
  dispatch_loop Scenarios.second_times_out ∅ Scenarios.text_of 200
    Scenarios.five_posts (Scenarios.store Scenarios.five_posts) no_counts =
  dispatch_loop Scenarios.second_times_out ∅ Scenarios.text_of 200
    (drop 2 Scenarios.five_posts)
    (mark_failed "fb-2" "acme" "facebook" "Read timed out."
       (set_sent
          [facebook_request (Scenarios.pending "fb-1" "facebook" "a" None)
             Scenarios.fb_page;
           facebook_request (Scenarios.pending "fb-2" "facebook" "b" None)
             Scenarios.fb_page]
          (dispatch_loop Scenarios.second_times_out ∅ Scenarios.text_of 200
             (take 1 Scenarios.five_posts)
             (Scenarios.store Scenarios.five_posts) no_counts).1))
    {| success := 1; failed := 1; skipped := 0 |}.
Proof.
  split; [vm_compute; reflexivity|]. split; [vm_compute; reflexivity|].
  refine (proj1 (dispatch_failures_are_isolated
            Scenarios.second_times_out ∅ Scenarios.text_of 200
            (take 1 Scenarios.five_posts)
            (Scenarios.pending "fb-2" "facebook" "b" None)
            (drop 2 Scenarios.five_posts)
            (Scenarios.store Scenarios.five_posts) no_counts
            (post_facebook Scenarios.second_times_out) Scenarios.fb_page
            (RequestException "Read timed out.") _ _ _ _ _)).
  - refine (bool_decide_unpack _ _). vm_compute. exact I.
  - reflexivity.
  - vm_compute. reflexivity.
  - vm_compute. reflexivity.
Defined.

Lemma sequential_dispatch_is_idempotent_witness :
  get_pending_posts 300
    (PostScheduler.run (Scenarios.always [("id", JStr "ext")]) ∅
       Scenarios.text_of 200 (Scenarios.store [Scenarios.fb_hello])).1 = [] ∧
  ∀ q,
    q ∈ get_pending_posts 300
          (PostScheduler.run (Scenarios.always [("id", JStr "ext")]) ∅
             Scenarios.text_of 200 (Scenarios.store [Scenarios.fb_hello])).1 →
    id q ≠ "fb-1".
Proof.
  split; [vm_compute; reflexivity|].
  refine (proj1 (proj1 (sequential_dispatch_is_idempotent
            (Scenarios.always [("id", JStr "ext")]) ∅ Scenarios.text_of
            200 300 (Scenarios.store [Scenarios.fb_hello]) Scenarios.fb_hello
            _ _) _)).
  - refine (bool_decide_unpack _ _). vm_compute. exact I.
  - vm_compute. left.
  - eexists. reflexivity.
Defined.

(** C3 as stated fails: the status change is not the first effect of
    processing a post.  Once the handler has sent the publish request and
    got its answer, the post is still selected as pending and no companion
    row exists.  And a due pending post whose platform has no handler is
    never moved: a run skips it and the next run selects it again. *)
Lemma publish_precedes_status_change :
  PostScheduler.run (Scenarios.always [("id", JStr "ext")]) ∅
    Scenarios.text_of 200 (Scenarios.store [Scenarios.tweet]) =
    (Scenarios.store [Scenarios.tweet],
     Some {| success := 0; failed := 0; skipped := 1 |}) ∧
  get_pending_posts 300 (Scenarios.store [Scenarios.tweet]) =
    [Scenarios.tweet] ∧
  after_handler_call (Scenarios.always [("id", JStr "ext")]) ∅
    Scenarios.fb_hello (Scenarios.store [Scenarios.fb_hello]) =
    Some (Ok (JStr "ext"),
          set_sent [facebook_request Scenarios.fb_hello Scenarios.fb_page]
            (Scenarios.store [Scenarios.fb_hello])) ∧
  get_pending_posts 200
    (set_sent [facebook_request Scenarios.fb_hello Scenarios.fb_page]
       (Scenarios.store [Scenarios.fb_hello])) = [Scenarios.fb_hello] ∧
  sprintai_posts
    (set_sent [facebook_request Scenarios.fb_hello Scenarios.fb_page]
       (Scenarios.store [Scenarios.fb_hello])) = [].
Proof. repeat split; vm_compute; reflexivity. Qed.

(** C4 as stated fails: the calendar row of a posted post is the original
    row with the status changed, whatever id the platform returned, and the
    row of a failed post carries no error text; the id and the error are
    found in the companion rows only.  And when the platform answers 200
    with a null id, the post is posted and its companion row holds neither
    an id nor an error. *)
Lemma external_id_not_on_calendar_row :
  calendar (PostScheduler.run (Scenarios.always [("id", JStr "111")]) ∅
              Scenarios.text_of 200 (Scenarios.store [Scenarios.fb_hello])).1 =
    [set_status "posted" Scenarios.fb_hello] ∧
  calendar (PostScheduler.run (Scenarios.always [("id", JStr "222")]) ∅
              Scenarios.text_of 200 (Scenarios.store [Scenarios.fb_hello])).1 =
    [set_status "posted" Scenarios.fb_hello] ∧
  external_post_id <$>
    sprintai_posts (PostScheduler.run (Scenarios.always [("id", JStr "111")]) ∅
                      Scenarios.text_of 200
                      (Scenarios.store [Scenarios.fb_hello])).1 =
    [Some (JStr "111")] ∧
  calendar (PostScheduler.run Scenarios.always_refused ∅
              Scenarios.text_of 200 (Scenarios.store [Scenarios.fb_hello])).1 =
    [set_status "failed" Scenarios.fb_hello] ∧
  PostScheduler.run (Scenarios.always [("id", JNull)]) ∅
    Scenarios.text_of 200 (Scenarios.store [Scenarios.fb_hello]) =
    ({| calendar := [set_status "posted" Scenarios.fb_hello];
        connections := connections (Scenarios.store [Scenarios.fb_hello]);
        sprintai_posts :=
          [{| calendar_id := "fb-1"; pub_client_id := "acme";
              pub_platform := "facebook"; external_post_id := None;
              posted_at := Some 200; error_message := None |}];
        sent := [facebook_request Scenarios.fb_hello Scenarios.fb_page] |},
     Some {| success := 1; failed := 0; skipped := 0 |}).
Proof. repeat split; vm_compute; reflexivity. Qed.

End DispatcherFacts.

(** ** Properties of the quality gate *)

Module QualityGateFacts.
Import ContentQA Derived.

Lemma float_eqb_eq x y : float_eqb x y = true → x = y.
Proof.
  destruct x as [a|a| |a m e], y as [b|b| |b n f]; simpl;
    try discriminate; try reflexivity.
  - intros H. apply Bool.eqb_prop in H. congruence.
  - intros H. apply Bool.eqb_prop in H. congruence.
  - intros H. apply andb_prop in H as [H He]. apply andb_prop in H as [Hs Hm].
    apply Bool.eqb_prop in Hs. apply Pos.eqb_eq in Hm. apply Z.eqb_eq in He.
    congruence.
Qed.

(** A check that has been run on every integer of a range holds for each. *)
Lemma checked_on_range (f : Z → bool) (lo n z : Z) :
  forallb f (seqZ lo n) = true → lo ≤ z < lo + n → f z = true.
Proof.
  intros H Hz. rewrite forallb_forall in H. apply H.
  apply list_elem_of_In, elem_of_seqZ. lia.
Qed.

Lemma values_in_order_perm pos (d : gmap string json) :
  values_in_order pos d ≡ₚ (map_to_list d).*2.
Proof.
  unfold values_in_order. apply fmap_Permutation, merge_sort_Permutation.
Qed.

(** The total of the integers among [vals]. *)
Lemma py_sum_ints acc zs :
  py_sum (NInt acc) (JInt <$> zs) = Ok (NInt (acc + foldr Z.add 0 zs)).
Proof.
  revert acc. induction zs as [|z zs IH]; intros acc; simpl.
  - do 2 f_equal. lia.
  - rewrite IH. do 2 f_equal. lia.
Qed.

(** A sum of integers does not depend on the order. *)
Lemma py_sum_ints_any_order acc vals zs :
  vals ≡ₚ JInt <$> zs →
  py_sum (NInt acc) vals = Ok (NInt (acc + foldr Z.add 0 zs)).
Proof.
  intros Hp. rewrite <- (py_sum_ints acc zs).
  remember (JInt <$> zs) as ws eqn:Hws.
  assert (Forall (λ v, ∃ z, v = JInt z) ws) as Hall.
  { subst ws. apply Forall_fmap, Forall_true. intros z. simpl. eauto. }
  clear Hws zs. revert acc.
  induction Hp as [|v l l' Hp IH|v v' l|l l' l'' Hp1 IH1 Hp2 IH2]; intros acc.
  - reflexivity.
  - apply Forall_cons in Hall as [[z ->] Hall]. simpl. apply IH, Hall.
  - apply Forall_cons in Hall as [[z ->] Hall].
    apply Forall_cons in Hall as [[z' ->] Hall]. simpl.
    replace (acc + z' + z) with (acc + z + z') by lia. reflexivity.
  - rewrite IH1 by (rewrite Hp2; exact Hall). apply IH2, Hall.
Qed.

Lemma sum_between (lo hi : Z) (zs : list Z) :
  Forall (λ z, lo ≤ z ≤ hi) zs →
  Z.of_nat (length zs) * lo ≤ foldr Z.add 0 zs ≤ Z.of_nat (length zs) * hi.
Proof.
  induction 1 as [|z zs Hz _ IH]; [simpl; lia|].
  cbn [foldr length]. lia.
Qed.

(** The average of integer scores depends on their number and their total
    only, not on their names or their order. *)
Lemma recalculated_average_ints pos (sc : gmap string json) zs :
  (map_to_list sc).*2 = JInt <$> zs →
  recalculated_average pos (JObj sc) =
    mean_to_one_decimal (Z.of_nat (length zs)) (foldr Z.add 0 zs).
Proof.
  intros Hvals. unfold recalculated_average, mean_to_one_decimal.
  rewrite (py_sum_ints_any_order 0 _ zs)
    by (rewrite <- Hvals; apply values_in_order_perm).
  cbn [and_then]. rewrite Z.add_0_l.
  replace (size sc) with (length zs); [reflexivity|].
  rewrite <- length_map_to_list, <- (length_fmap snd), Hvals, length_fmap.
  reflexivity.
Qed.

(** Sixths never lie half-way between two tenths: the result is the one
    tenth nearest to [total / 6], with no tie to break. *)
Lemma round_half_even_sixths total t :
  t ≠ round_half_even (10 * total) 6 →
  Z.abs (10 * total - 6 * round_half_even (10 * total) 6) <
  Z.abs (10 * total - 6 * t).
Proof.
  unfold round_half_even.
  pose proof (Z.div_mod (10 * total) 6 ltac:(lia)) as Hdm.
  pose proof (Z.mod_pos_bound (10 * total) 6 ltac:(lia)) as Hr.
  set (q := 10 * total / 6) in *. set (r := (10 * total) mod 6) in *.
  clearbody q r.
  destruct (2 * r ?= 6) eqn:Hc.
  - apply Z.compare_eq in Hc. exfalso. lia.
  - change (2 * r < 6) in Hc. lia.
  - change (2 * r > 6) in Hc. lia.
Qed.

Lemma six_checked_table : forallb six_checked (seqZ (-6000) 12001) = true.
Proof. vm_compute. reflexivity. Qed.

(** For six scores of at most 1000 in absolute value each, the float the
    code computes is the one that the tenth nearest to the mean denotes,
    and it reaches the threshold exactly when that tenth is at least 70. *)
Lemma mean_of_six s :
  -6000 ≤ s ≤ 6000 →
  mean_to_one_decimal 6 s = Ok (tenths (round_half_even (10 * s) 6)) ∧
  fle APPROVAL_THRESHOLD (tenths (round_half_even (10 * s) 6)) =
    (70 <=? round_half_even (10 * s) 6).
Proof.
  intros Hs.
  pose proof (checked_on_range six_checked (-6000) 12001 s
                six_checked_table ltac:(lia)) as H.
  unfold six_checked in H.
  destruct (mean_to_one_decimal 6 s) as [x|e]; [|discriminate].
  apply andb_prop in H as [Hx Hv]. apply float_eqb_eq in Hx. subst x.
  apply Bool.eqb_prop in Hv. split; [reflexivity | exact Hv].
Qed.

Lemma enforced_verdict_approved avg :
  enforced_verdict avg = "APPROVED" ↔ fle APPROVAL_THRESHOLD avg = true.
Proof.
  unfold enforced_verdict.
  destruct (fle APPROVAL_THRESHOLD avg); split; (discriminate || reflexivity).
Qed.

Lemma enforced_verdict_rewrite avg :
  enforced_verdict avg = "REWRITE" ↔ fle APPROVAL_THRESHOLD avg = false.
Proof.
  unfold enforced_verdict.
  destruct (fle APPROVAL_THRESHOLD avg); split; (discriminate || reflexivity).
Qed.

Lemma has_required (d : gmap string json) :
  (∀ k, k ∈ required → is_Some (d !! k)) →
  forallb (λ k, bool_decide (is_Some (d !! k))) required = true.
Proof.
  intros H. apply forallb_forall. intros k Hk.
  apply bool_decide_eq_true_2, H, list_elem_of_In, Hk.
Qed.



Section WithOracle.

Variable oracle : nat → prompt → result json.
Variable exn_str : exn → string.
Variable keys_repr : gmap string json → string.
Variable position : nat → string → nat.

Local Abbreviation validate := (validate_and_score keys_repr).
Local Abbreviation try_once := (ContentQA.try_once oracle keys_repr position).
Local Abbreviation call_claude_qa :=
  (ContentQA.call_claude_qa oracle exn_str keys_repr position).
Local Abbreviation review_post :=
  (ContentQA.review_post oracle exn_str keys_repr position).
Local Abbreviation review_loop :=
  (ContentQA.review_loop oracle exn_str keys_repr position).

(** C1: for an answer that has the required keys and six integer dimension
    scores [zs], of at most 1000 in absolute value each, the gate accepts
    the answer, in whatever order the scores are listed.  Its average is
    the float that the tenth [t] nearest to their mean denotes ([t] is
    strictly nearer than any other tenth); the verdict is APPROVED exactly
    when that average is at least 7.0, that is when [t] is at least 70,
    and REWRITE otherwise; and neither depends on the average and the
    verdict the oracle supplied. *)
Theorem verdict_is_recomputed (d sc : gmap string json) (zs : list Z) :
  (∀ k, k ∈ required → is_Some (d !! k)) →
  d !! "scores" = Some (JObj sc) →
  (map_to_list sc).*2 = JInt <$> zs →
  length zs = 6%nat →
  Forall (λ z, -1000 ≤ z ≤ 1000) zs →
  ∃ q t, (∀ pos, validate pos (JObj d) = Ok q) ∧
         average q = tenths t ∧
         (∀ t', t' ≠ t →
            Z.abs (10 * foldr Z.add 0 zs - 6 * t) <
            Z.abs (10 * foldr Z.add 0 zs - 6 * t')) ∧
         (verdict q = "APPROVED" ↔ fle APPROVAL_THRESHOLD (average q) = true) ∧
         (verdict q = "REWRITE" ↔ fle APPROVAL_THRESHOLD (average q) = false) ∧
         (fle APPROVAL_THRESHOLD (average q) = true ↔ 70 ≤ t) ∧
         (∀ pos a v,
            validate pos (JObj (<["average" := a]> (<["verdict" := v]> d)))
            = Ok q) ∧
         ∀ pr retries calls, oracle calls pr = Ok (JObj d) →
           call_claude_qa pr retries calls = (Ok (Some q), S calls).
Proof.
  intros Hreq Hsc Hvals Hlen Hbound.
  set (t := round_half_even (10 * foldr Z.add 0 zs) 6).
  assert (-6000 ≤ foldr Z.add 0 zs ≤ 6000) as Hsum.
  { pose proof (sum_between _ _ _ Hbound) as H. rewrite Hlen in H. lia. }
  destruct (mean_of_six _ Hsum) as [Hmean Hthr]. fold t in Hmean, Hthr.
  assert (∀ pos, recalculated_average pos (JObj sc) = Ok (tenths t)) as Havg.
  { intros pos. rewrite (recalculated_average_ints pos sc zs Hvals), Hlen.
    exact Hmean. }
  set (q := {| scores := sc; average := tenths t;
               verdict := enforced_verdict (tenths t);
               issues := default JNull (d !! "issues");
               improved_version := default JNull (d !! "improved_version") |}).
  assert (∀ pos, validate pos (JObj d) = Ok q) as Hq.
  { intros pos. unfold validate_and_score. rewrite (has_required d Hreq), Hsc.
    cbn [from_option Datatypes.id]. rewrite Havg. reflexivity. }
  exists q, t. split; [exact Hq|]. split; [reflexivity|].
  split; [|split; [|split; [|split; [|split]]]].
  - intros t' Ht. apply round_half_even_sixths. exact Ht.
  - apply enforced_verdict_approved.
  - apply enforced_verdict_rewrite.
  - cbn [average q]. rewrite Hthr. apply Z.leb_le.
  - intros pos a v. rewrite <- (Hq pos). unfold validate_and_score.
    rewrite (has_required d Hreq), has_required.
    + rewrite !lookup_insert_ne by discriminate. reflexivity.
    + intros k Hk. destruct (decide (k = "average")) as [->|Ha].
      { rewrite lookup_insert_eq. eauto. }
      rewrite lookup_insert_ne by congruence.
      destruct (decide (k = "verdict")) as [->|Hv].
      { rewrite lookup_insert_eq. eauto. }
      rewrite lookup_insert_ne by congruence. apply Hreq, Hk.
  - intros pr retries calls Horacle. unfold ContentQA.call_claude_qa.
    rewrite Nat.add_1_r. cbn [seq attempts].
    unfold ContentQA.try_once. rewrite Horacle. cbn [and_then].
    rewrite Hq. reflexivity.
Qed.

(** C7 (as the code has it): outside dry-run mode, a result whose verdict
    is REWRITE and whose improved version is no string (null, say) makes
    [apply_qa_result] raise, and nothing is written.  For every other
    result, every calendar row of the post gets status pending and the
    computed average as its score; if the verdict is REWRITE and the
    improved text is non-empty once surrounding whitespace is stripped,
    the post text becomes the stripped text and [qa_rewritten] is true;
    otherwise the text is kept and [qa_rewritten] is false. *)
Theorem apply_qa_result_update (p : post) (q : qa) (w : world) :
  (verdict q = "REWRITE" → is_str (improved_version q) = false →
   ∃ e, apply_qa_result p q false w = (Raise e, w)) ∧
  (verdict q ≠ "REWRITE" ∨ is_str (improved_version q) = true →
   ∃ f w', apply_qa_result p q false w = (Ok tt, w') ∧
           calendar w' = update_by_id (id p) f (calendar w) ∧
           ∀ r, status (f r) = "pending" ∧
                qa_score (f r) = Some (average q) ∧
                (∀ s, verdict q = "REWRITE" → improved_version q = JStr s →
                      strip s ≠ "" →
                      post_text (f r) = strip s ∧
                      qa_rewritten (f r) = Some true) ∧
                (¬ (∃ s, verdict q = "REWRITE" ∧ improved_version q = JStr s ∧
                         strip s ≠ "") →
                 post_text (f r) = post_text r ∧
                 qa_rewritten (f r) = Some false)).
Proof.
  unfold apply_qa_result, strip_method. split.
  - intros Hv Hs. apply String.eqb_eq in Hv. rewrite Hv.
    destruct (improved_version q); try discriminate; cbn; eauto.
  - intros Hcase.
    destruct (String.eqb (verdict q) "REWRITE") eqn:Ev.
    + apply String.eqb_eq in Ev.
      destruct Hcase as [Hne|Hs]; [congruence|].
      destruct (improved_version q) as [| | | |s| |] eqn:Ei; try discriminate.
      cbn [and_then].
      destruct (String.eqb (strip s) "") eqn:Es; cbn [and_then negb].
      * apply String.eqb_eq in Es.
        do 2 eexists. split; [reflexivity|]. split; [reflexivity|].
        intros r. cbn. split; [reflexivity|]. split; [reflexivity|].
        split; [intros s' _ [= <-] Hne; congruence | intros _; auto].
      * apply String.eqb_neq in Es.
        do 2 eexists. split; [reflexivity|]. split; [reflexivity|].
        intros r. cbn. split; [reflexivity|]. split; [reflexivity|].
        split; [intros s' _ [= <-] _; auto|].
        intros Hno. exfalso. apply Hno. eauto.
    + apply String.eqb_neq in Ev. cbn [and_then].
      do 2 eexists. split; [reflexivity|]. split; [reflexivity|].
      intros r. cbn. split; [reflexivity|]. split; [reflexivity|].
      split; [intros s' Hv; congruence | intros _; auto].
Qed.

Lemma apply_qa_result_dry p q w : (apply_qa_result p q true w).2 = w.
Proof.
  unfold apply_qa_result.
  destruct (and_then _ _) as [[rw txt]|e]; reflexivity.
Qed.

Lemma apply_qa_result_calls p q dry w :
  oracle_calls (apply_qa_result p q dry w).2 = oracle_calls w.
Proof.
  unfold apply_qa_result.
  destruct (and_then _ _) as [[rw txt]|e]; [|reflexivity].
  destruct dry; reflexivity.
Qed.

Lemma apply_qa_result_raises p q dry w dry' w' :
  (apply_qa_result p q dry w).1 = (apply_qa_result p q dry' w').1.
Proof.
  unfold apply_qa_result.
  destruct (and_then _ _) as [[rw txt]|e]; [|reflexivity].
  destruct dry, dry'; reflexivity.
Qed.




Lemma review_post_dry_frame client rubric p w rep :
  calendar (review_post true client rubric p w rep).2 = calendar w ∧
  qa_log (review_post true client rubric p w rep).2 = qa_log w.
Proof.
  unfold ContentQA.review_post.
  destruct (call_claude_qa _ 2 (oracle_calls w)) as [[[q|]|e] n];
    try (split; reflexivity).
  destruct (and_then (issues_str_check q) _); [|split; reflexivity].
  pose proof (apply_qa_result_dry p q (set_oracle_calls n w)) as Hdry.
  destruct (apply_qa_result p q true (set_oracle_calls n w)) as [[u|e] w2];
    simpl in Hdry; subst w2; split; reflexivity.
Qed.

Lemma review_post_sync client rubric p w w' rep :
  oracle_calls w = oracle_calls w' →
  (review_post true client rubric p w rep).1 =
    (review_post false client rubric p w' rep).1 ∧
  oracle_calls (review_post true client rubric p w rep).2 =
    oracle_calls (review_post false client rubric p w' rep).2.
Proof.
  intros Hcalls. unfold ContentQA.review_post. rewrite Hcalls.
  destruct (call_claude_qa _ 2 (oracle_calls w')) as [[[q|]|e] n];
    try (split; reflexivity).
  destruct (and_then (issues_str_check q) _); [|split; reflexivity].
  pose proof (apply_qa_result_raises p q true (set_oracle_calls n w)
                false (set_oracle_calls n w')) as Hsame.
  pose proof (apply_qa_result_calls p q true (set_oracle_calls n w)) as Hc1.
  pose proof (apply_qa_result_calls p q false (set_oracle_calls n w')) as Hc2.
  destruct (apply_qa_result p q true (set_oracle_calls n w)) as [[u1|e1] w1];
    destruct (apply_qa_result p q false (set_oracle_calls n w')) as [[u2|e2] w2];
    simpl in *; try discriminate; split; congruence.
Qed.

Lemma review_loop_sync client rubric posts w w' rep :
  oracle_calls w = oracle_calls w' →
  (review_loop true client rubric posts w rep).1 =
    (review_loop false client rubric posts w' rep).1 ∧
  oracle_calls (review_loop true client rubric posts w rep).2 =
    oracle_calls (review_loop false client rubric posts w' rep).2.
Proof.
  revert w w' rep. induction posts as [|p posts IH]; intros w w' rep Hcalls.
  - split; [reflexivity | exact Hcalls].
  - cbn [ContentQA.review_loop].
    destruct (review_post_sync client rubric p w w' rep Hcalls) as [Hr Hc].
    destruct (review_post true client rubric p w rep) as [[rep1|e1] w1];
      destruct (review_post false client rubric p w' rep) as [[rep2|e2] w2];
      simpl in Hr, Hc; try discriminate.
    + injection Hr as ->. apply IH, Hc.
    + split; [exact Hr | exact Hc].
Qed.

(** C9: a dry-run review of any list of posts leaves the calendar and the
    QA log exactly as they were, and it scores all the same: it makes the
    same oracle calls and ends with the same report (or the same exception)
    as the run that commits. *)
Theorem dry_run_commits_nothing (client : gmap string json) (rubric : string)
    (posts : list post) (w : world) (rep : report) :
  calendar (review_loop true client rubric posts w rep).2 = calendar w ∧
  qa_log (review_loop true client rubric posts w rep).2 = qa_log w ∧
  (review_loop true client rubric posts w rep).1 =
    (review_loop false client rubric posts w rep).1 ∧
  oracle_calls (review_loop true client rubric posts w rep).2 =
    oracle_calls (review_loop false client rubric posts w rep).2.
Proof.
  assert (∀ posts w rep,
            calendar (review_loop true client rubric posts w rep).2 = calendar w ∧
            qa_log (review_loop true client rubric posts w rep).2 = qa_log w)
    as Hframe.
  { clear. intros posts. induction posts as [|p posts IH]; intros w rep.
    - split; reflexivity.
    - cbn [ContentQA.review_loop].
      destruct (review_post_dry_frame client rubric p w rep) as [Hc Hl].
      destruct (review_post true client rubric p w rep) as [[rep1|e1] w1];
        simpl in Hc, Hl.
      + destruct (IH w1 rep1) as [Hc' Hl']. split; congruence.
      + split; assumption. }
  destruct (Hframe posts w rep) as [Hc Hl].
  destruct (review_loop_sync client rubric posts w w rep eq_refl) as [Hr Hn].
  auto.
Qed.

End WithOracle.

(** C7 as stated fails: a REWRITE verdict with a supplied improved text
    that is not empty, a single space, leaves the post text as it was and
    sets [qa_rewritten] to false; and in dry-run mode the reviewed post is
    not touched at all. *)
Lemma blank_rewrite_keeps_text :
  apply_qa_result Scenarios.weak_draft
    (Scenarios.rewrite_qa "Is your AC ready for July?") true
    (Scenarios.qa_store [Scenarios.weak_draft]) =
    (Ok tt, Scenarios.qa_store [Scenarios.weak_draft]) ∧
  validate_and_score Scenarios.keys_text (Scenarios.as_prompted 0)
    (JObj Scenarios.blank_rewrite) = Ok (Scenarios.rewrite_qa " ") ∧
  calendar (apply_qa_result Scenarios.weak_draft (Scenarios.rewrite_qa " ")
              false (Scenarios.qa_store [Scenarios.weak_draft])).2 =
    [{| id := "cal-1"; client_id := "acme"; platform := "facebook";
        post_text := "We pride ourselves."; image_url := None;
        scheduled_at := 100; status := "pending";
        status_prev := Some "draft"; qa_score := Some (tenths 50);
        qa_rewritten := Some false |}].
Proof. repeat split; vm_compute; reflexivity. Qed.

Lemma apply_qa_result_update_witness :
  ∃ f w',
    apply_qa_result Scenarios.weak_draft
      (Scenarios.rewrite_qa "  Is your AC ready for July?  ") false
      (Scenarios.qa_store [Scenarios.weak_draft]) = (Ok tt, w') ∧
    calendar w' = update_by_id "cal-1" f [Scenarios.weak_draft] ∧
    post_text (f Scenarios.weak_draft) = "Is your AC ready for July?" ∧
    qa_rewritten (f Scenarios.weak_draft) = Some true.
Proof.
  destruct (proj2 (apply_qa_result_update Scenarios.weak_draft
              (Scenarios.rewrite_qa "  Is your AC ready for July?  ")
              (Scenarios.qa_store [Scenarios.weak_draft]))
              (or_intror eq_refl))
    as (f & w' & Happly & Hcal & Hf).
  exists f, w'. split; [exact Happly|]. split; [exact Hcal|].
  destruct (Hf Scenarios.weak_draft) as (_ & _ & Hrw & _).
  apply (Hrw "  Is your AC ready for July?  ");
    [reflexivity | reflexivity | vm_compute; discriminate].
Defined.



Lemma verdict_is_recomputed_witness :
  ∃ q, (∀ pos, validate_and_score Scenarios.keys_text pos
                 (JObj Scenarios.flattering) = Ok q) ∧
       average q = tenths 68 ∧ verdict q = "REWRITE".
Proof.
  destruct (verdict_is_recomputed Scenarios.down_three_times
              Scenarios.text_of Scenarios.keys_text Scenarios.as_prompted
              Scenarios.flattering
              (Scenarios.six 6 7 7 7 7 7)
              [7; 7; 7; 7; 6; 7])
    as (q & t & Hq & Hav & Hnear & _ & Hrw & Hthr & _ & _).
  - intros k Hk. apply (bool_decide_unpack _).
    revert k Hk. apply Forall_forall. refine (bool_decide_unpack _ _).
    vm_compute. exact I.
  - reflexivity.
  - vm_compute. reflexivity.
  - reflexivity.
  - repeat (constructor; [lia|]). constructor.
  - exists q. split; [exact Hq|].
    assert (t = 68) as ->.
    { destruct (decide (68 = t)) as [<-|Hne]; [reflexivity|].
      specialize (Hnear 68 Hne). simpl in Hnear. lia. }
    split; [exact Hav|]. apply Hrw.
    destruct (fle APPROVAL_THRESHOLD (average q)); [|reflexivity].
    pose proof (proj1 Hthr eq_refl). lia.
Defined.

End QualityGateFacts.

(** ** Further properties of the platform adapters *)

Module AdapterEdgeFacts.
Import PostScheduler Derived.

Section WithEnvironment.

Variable net : nat → request → result response.
Variable environ : gmap string string.

(** One exchange inside a handler: the request is logged, and what follows
    sees the JSON of the answer or the exception it ends in. *)
Lemma exchange {A} (rq : request) (k : json → NetM A) (sent : list request) :
  (bind (requests_post net rq)
        (λ r, bind (raise_for_status rq r) (λ _, bind (lift (r_json r)) k))) sent =
  match json_of_answer rq (net (length sent) rq) with
  | Ok d => k d (sent ++ [rq])
  | Raise e => (Raise e, sent ++ [rq])
  end.
Proof.
  unfold bind, requests_post, raise_for_status, lift, json_of_answer, throw, ret.
  destruct (net (length sent) rq) as [r|e]; [|reflexivity].
  destruct ((400 <=? status_code r) && (status_code r <? 600)); [reflexivity|].
  destruct (r_json r); reflexivity.
Qed.

(** X1: [post_facebook] sends exactly one request whatever comes back, be
    it an id, an error status, a body that is no JSON object or a
    transport failure: the photo request when the post has a non-empty
    image, the feed request otherwise. *)
Theorem post_facebook_sends_one_request (p : post) (c : connection)
    (sent : list request) :
  (post_facebook net p c sent).2 = sent ++ [facebook_request p c] ∧
  url (facebook_request p c) =
    graph (page_id c) (if truthy_str (image_url p) then "/photos" else "/feed").
Proof.
  split.
  - unfold post_facebook. rewrite exchange.
    destruct (json_of_answer _ _) as [d|e]; [|reflexivity].
    unfold bind, lift, ret.
    destruct (get_method d "post_id" JNull) as [a|e]; [|reflexivity].
    destruct (truthy a); reflexivity.
  - unfold facebook_request. destruct (truthy_str (image_url p)); reflexivity.
Qed.

(** X2: [post_facebook] treats exactly the statuses 400 to 599 as errors.
    For such an answer it raises [HTTPError] without looking at the body;
    any other status, a redirect or a 1xx included, with a JSON object as
    body is a success and yields an id. *)
Theorem post_facebook_error_statuses (p : post) (c : connection)
    (sent : list request) (resp : response) :
  net (length sent) (facebook_request p c) = Ok resp →
  (400 ≤ status_code resp < 600 →
   (post_facebook net p c sent).1 =
     Raise (HTTPError (status_code resp) (url (facebook_request p c)))) ∧
  (¬ 400 ≤ status_code resp < 600 →
   ∀ data, r_json resp = Ok (JObj data) →
     ∃ v, (post_facebook net p c sent).1 = Ok v).
Proof.
  intros Hnet. unfold post_facebook. rewrite exchange, Hnet.
  unfold json_of_answer. split.
  - intros [Hlo Hhi].
    rewrite (proj2 (Z.leb_le _ _) Hlo), (proj2 (Z.ltb_lt _ _) Hhi). reflexivity.
  - intros Hout data Hjson.
    destruct ((400 <=? status_code resp) && (status_code resp <? 600)) eqn:E.
    + apply andb_prop in E as [E1 E2].
      apply Z.leb_le in E1. apply Z.ltb_lt in E2. lia.
    + rewrite Hjson. unfold bind, lift, ret. simpl.
      destruct (truthy (default JNull (data !! "post_id"))); eauto.
Qed.

(** X3: when the media-container step of [post_instagram] fails in any
    way (transport failure, error status, a body that is no JSON, no
    object, or has no [id]), the publish step is not attempted: the only
    request sent is the media request, and the failure is raised. *)
Theorem post_instagram_stops_after_media_failure (p : post) (c : connection)
    (sent : list request) (img : string) (e : exn) :
  image_url p = Some img → img ≠ "" →
  (let? d := json_of_answer (instagram_media_request img p c)
               (net (length sent) (instagram_media_request img p c)) in
   subscript d "id") = Raise e →
  post_instagram net p c sent =
    (Raise e, sent ++ [instagram_media_request img p c]).
Proof.
  intros Himg Hne Hfail. unfold post_instagram. rewrite Himg. simpl.
  apply String.eqb_neq in Hne. rewrite Hne. simpl.
  rewrite exchange.
  destruct (json_of_answer _ _) as [d|e']; simpl in Hfail.
  - unfold bind at 1, lift at 1. rewrite Hfail. reflexivity.
  - congruence.
Qed.

(** X4: when the media step yields the creation id [cid], [post_instagram]
    sends a second request that publishes exactly that id, and its result
    is decided by the publish answer alone: the failure of that step, the
    [id] of the answering object, or [cid] when that object has no [id]. *)
Theorem post_instagram_publishes_creation_id (p : post) (c : connection)
    (sent : list request) (img : string) (cid : json) :
  image_url p = Some img → img ≠ "" →
  (let? d := json_of_answer (instagram_media_request img p c)
               (net (length sent) (instagram_media_request img p c)) in
   subscript d "id") = Ok cid →
  post_instagram net p c sent =
    ((let? d2 := json_of_answer (instagram_publish_request cid c)
                   (net (S (length sent)) (instagram_publish_request cid c)) in
      get_method d2 "id" cid),
     sent ++ [instagram_media_request img p c;
              instagram_publish_request cid c]) ∧
  ∀ d2, json_of_answer (instagram_publish_request cid c)
          (net (S (length sent)) (instagram_publish_request cid c))
        = Ok (JObj d2) →
        (post_instagram net p c sent).1 = Ok (default cid (d2 !! "id")).
Proof.
  intros Himg Hne Hcid.
  assert (post_instagram net p c sent =
    ((let? d2 := json_of_answer (instagram_publish_request cid c)
                   (net (S (length sent)) (instagram_publish_request cid c)) in
      get_method d2 "id" cid),
     sent ++ [instagram_media_request img p c;
              instagram_publish_request cid c])) as Heq.
  { unfold post_instagram. rewrite Himg. simpl.
    apply String.eqb_neq in Hne. rewrite Hne. simpl.
    rewrite exchange.
    destruct (json_of_answer _ _) as [d|e']; simpl in Hcid; [|discriminate].
    unfold bind at 1, lift at 1. rewrite Hcid.
    rewrite exchange, AdapterFacts.length_snoc, <- app_assoc.
    destruct (json_of_answer _ _) as [d2|e2]; reflexivity. }
  split; [exact Heq|].
  intros d2 Hd2. rewrite Heq, Hd2. reflexivity.
Qed.

Lemma refresh_google_token_exchange (stored cid secret : string)
    (sent : list request) :
  environ !! "GOOGLE_CLIENT_ID" = Some cid →
  environ !! "GOOGLE_CLIENT_SECRET" = Some secret →
  refresh_google_token net environ stored sent =
    ((let? d := json_of_answer (google_token_request stored cid secret)
                  (net (length sent) (google_token_request stored cid secret)) in
      subscript d "access_token"),
     sent ++ [google_token_request stored cid secret]).
Proof.
  intros Hcid Hsec.
  unfold refresh_google_token, getenv. rewrite Hcid, Hsec.
  unfold bind, ret, requests_post, raise_for_status, lift, throw, json_of_answer.
  destruct (net (length sent) _) as [r|e]; [|reflexivity].
  destruct ((400 <=? status_code r) && (status_code r <? 600)); [reflexivity|].
  destruct (r_json r); reflexivity.
Qed.

(** X5: [post_google_business] needs both [GOOGLE_CLIENT_ID] and
    [GOOGLE_CLIENT_SECRET] in the environment: when one is missing it raises
    [KeyError] naming the first missing variable before any request is
    sent. *)
Theorem post_google_business_needs_environment (p : post) (c : connection)
    (sent : list request) :
  (environ !! "GOOGLE_CLIENT_ID" = None →
   post_google_business net environ p c sent =
     (Raise (KeyError "GOOGLE_CLIENT_ID"), sent)) ∧
  (is_Some (environ !! "GOOGLE_CLIENT_ID") →
   environ !! "GOOGLE_CLIENT_SECRET" = None →
   post_google_business net environ p c sent =
     (Raise (KeyError "GOOGLE_CLIENT_SECRET"), sent)).
Proof.
  unfold post_google_business, refresh_google_token, getenv, bind, throw, ret.
  split.
  - intros ->. reflexivity.
  - intros [cid ->] ->. reflexivity.
Qed.

(** X6: when the token exchange of [post_google_business] fails in any way
    (transport failure, error status, a body that is no JSON object or has
    no [access_token]), the local post is never attempted: the only
    request sent is the one to the token endpoint, carrying the stored
    token as refresh token, and the failure is raised. *)
Theorem post_google_business_stops_after_refresh_failure (p : post)
    (c : connection) (sent : list request) (cid secret : string) (e : exn) :
  environ !! "GOOGLE_CLIENT_ID" = Some cid →
  environ !! "GOOGLE_CLIENT_SECRET" = Some secret →
  (let? d := json_of_answer (google_token_request (access_token c) cid secret)
               (net (length sent)
                  (google_token_request (access_token c) cid secret)) in
   subscript d "access_token") = Raise e →
  post_google_business net environ p c sent =
    (Raise e, sent ++ [google_token_request (access_token c) cid secret]) ∧
  body (google_token_request (access_token c) cid secret) =
    Form (list_to_map [("grant_type", JStr "refresh_token");
                       ("refresh_token", JStr (access_token c));
                       ("client_id", JStr cid);
                       ("client_secret", JStr secret)]).
Proof.
  intros Hcid Hsec Hfail. split; [|reflexivity].
  unfold post_google_business. unfold bind at 1.
  rewrite (refresh_google_token_exchange _ cid secret sent Hcid Hsec), Hfail.
  reflexivity.
Qed.

(** X7: when the token exchange yields the token [tok], the local post is
    sent with [tok] as bearer, to the location of the connection, with a
    photo attached exactly when the post has a non-empty image; a 2xx
    answer that is an object with a [name] makes the handler return that
    name. *)
Theorem post_google_business_returns_name (p : post) (c : connection)
    (sent : list request) (cid secret : string) (tok name : json)
    (d2 : gmap string json) :
  environ !! "GOOGLE_CLIENT_ID" = Some cid →
  environ !! "GOOGLE_CLIENT_SECRET" = Some secret →
  (let? d := json_of_answer (google_token_request (access_token c) cid secret)
               (net (length sent)
                  (google_token_request (access_token c) cid secret)) in
   subscript d "access_token") = Ok tok →
  json_of_answer (google_post_request tok p c)
    (net (S (length sent)) (google_post_request tok p c)) = Ok (JObj d2) →
  d2 !! "name" = Some name →
  post_google_business net environ p c sent =
    (Ok name,
     sent ++ [google_token_request (access_token c) cid secret;
              google_post_request tok p c]) ∧
  bearer (google_post_request tok p c) = Some tok ∧
  (is_Some (google_post_body p !! "media") ↔ truthy_str (image_url p) = true).
Proof.
  intros Hcid Hsec Htok Hpost Hname. split; [|split; [reflexivity|]].
  - unfold post_google_business. unfold bind at 1.
    rewrite (refresh_google_token_exchange _ cid secret sent Hcid Hsec), Htok.
    rewrite exchange, AdapterFacts.length_snoc, Hpost, <- app_assoc.
    unfold lift, get_method. rewrite Hname. reflexivity.
  - unfold google_post_body. destruct (truthy_str (image_url p)).
    + rewrite lookup_insert_eq. split; eauto.
    + split; [|discriminate]. intros [x Hx]. vm_compute in Hx. discriminate.
Qed.

End WithEnvironment.

End AdapterEdgeFacts.

(** ** Invariants of the dispatcher *)

Module DispatcherInvariants.
Import PostScheduler Derived.

Lemma NoDup_fmap_same {A B} (f : A → B) (l : list A) (x y : A) :
  NoDup (f <$> l) → x ∈ l → y ∈ l → f x = f y → x = y.
Proof.
  induction l as [|a l IH]; intros Hnd Hx Hy Hf; [inversion Hx|].
  rewrite fmap_cons in Hnd. apply NoDup_cons in Hnd as [Ha Hnd].
  apply elem_of_cons in Hx as [->|Hx]; apply elem_of_cons in Hy as [->|Hy].
  - reflexivity.
  - exfalso. apply Ha. rewrite Hf. apply list_elem_of_fmap_2, Hy.
  - exfalso. apply Ha. rewrite <- Hf. apply list_elem_of_fmap_2, Hx.
  - apply IH; assumption.
Qed.

Lemma get_connection_cases (w : world) (cid plat : string) :
  match get_connection w cid plat with
  | Some c => c ∈ connections w ∧ conn_client_id c = cid ∧ conn_platform c = plat
  | None => ∀ c, c ∈ connections w →
                 ¬ (conn_client_id c = cid ∧ conn_platform c = plat)
  end.
Proof.
  unfold get_connection.
  destruct (filter _ (connections w)) as [|c l] eqn:E; simpl.
  - intros c Hc Hmatch.
    assert (c ∈ filter (λ c, conn_client_id c = cid ∧ conn_platform c = plat)
                  (connections w)) as Hin
      by (apply list_elem_of_filter; auto).
    rewrite E in Hin. inversion Hin.
  - assert (c ∈ filter (λ c, conn_client_id c = cid ∧ conn_platform c = plat)
                  (connections w)) as Hin by (rewrite E; left).
    apply list_elem_of_filter in Hin as [[H1 H2] Hin]. auto.
Qed.

(** X8: [get_connection] finds a connection exactly when the table has a
    row for the asked client and platform, and what it returns is such a
    row of the table: never the row of another client or platform. *)
Theorem get_connection_finds_own_row (w : world) (cid plat : string) :
  (is_Some (get_connection w cid plat) ↔
   ∃ c, c ∈ connections w ∧ conn_client_id c = cid ∧ conn_platform c = plat) ∧
  ∀ c, get_connection w cid plat = Some c →
       c ∈ connections w ∧ conn_client_id c = cid ∧ conn_platform c = plat.
Proof.
  pose proof (get_connection_cases w cid plat) as H.
  destruct (get_connection w cid plat) as [c|].
  - split; [split; eauto|]. intros c' [= <-]. exact H.
  - split; [|discriminate]. split; [intros [? [=]]|].
    intros (c & Hin & Hc). exfalso. exact (H c Hin Hc).
Qed.

Section WithEnvironment.

Variable net : nat → request → result response.
Variable environ : gmap string string.
Variable exn_str : exn → string.

Local Abbreviation handler_of := (handler_for net environ).
Local Abbreviation step := (dispatch_post net environ exn_str).
Local Abbreviation loop := (dispatch_loop net environ exn_str).
Local Abbreviation run := (PostScheduler.run net environ exn_str).

Lemma handler_for_known plat :
  handler_of plat = None ↔ plat ∉ known_platforms.
Proof.
  unfold handler_for, PLATFORM_HANDLERS, known_platforms. simpl.
  rewrite !not_elem_of_cons.
  destruct (decide (plat = "facebook")) as [->|H1].
  { rewrite lookup_insert_eq. split; [discriminate | tauto]. }
  rewrite lookup_insert_ne by congruence.
  destruct (decide (plat = "instagram")) as [->|H2].
  { rewrite lookup_insert_eq. split; [discriminate | tauto]. }
  rewrite lookup_insert_ne by congruence.
  destruct (decide (plat = "google_business")) as [->|H3].
  { rewrite lookup_insert_eq. split; [discriminate | tauto]. }
  rewrite lookup_insert_ne by congruence. rewrite lookup_empty.
  split; [intros _|reflexivity]. repeat split; try assumption.
  apply not_elem_of_nil.
Qed.

(** X9: a post is skipped exactly when its platform is none of facebook,
    instagram and google_business, and a skipped post changes nothing: no
    row, no log entry and no request. *)
Theorem skipped_iff_unknown_platform (now : Z) (p : post) (w : world) :
  ((step now p w).2 = Skipped ↔ platform p ∉ known_platforms) ∧
  ((step now p w).2 = Skipped → (step now p w).1 = w).
Proof.
  split.
  - rewrite DispatcherFacts.dispatch_post_skipped. apply handler_for_known.
  - unfold dispatch_post.
    destruct (handler_of (platform p)) as [h|]; [|reflexivity].
    destruct (get_connection w (client_id p) (platform p)) as [c|];
      [|discriminate].
    destruct (h p c (sent w)) as [[ext|e] sent']; discriminate.
Qed.

(** X10: a post is only ever published with a connection of its own
    client and platform: whenever the loop body sends a request, the
    handler of the post's platform was run with a row of the connection
    table that belongs to the post's client and platform; without a
    handler or without such a row nothing is sent. *)
Theorem requests_use_own_connection (now : Z) (p : post) (w : world) :
  sent (step now p w).1 = sent w ∨
  ∃ h c, handler_of (platform p) = Some h ∧
         c ∈ connections w ∧
         conn_client_id c = client_id p ∧ conn_platform c = platform p ∧
         sent (step now p w).1 = (h p c (sent w)).2.
Proof.
  unfold dispatch_post.
  destruct (handler_of (platform p)) as [h|] eqn:Hh; [|left; reflexivity].
  pose proof (get_connection_cases w (client_id p) (platform p)) as Hc.
  destruct (get_connection w (client_id p) (platform p)) as [c|];
    [|left; reflexivity].
  destruct Hc as (Hin & Hcid & Hplat).
  right. exists h, c. split; [reflexivity|]. split; [exact Hin|].
  split; [exact Hcid|]. split; [exact Hplat|].
  destruct (h p c (sent w)) as [[ext|e] sent']; reflexivity.
Qed.

Lemma dispatch_post_connections now p w :
  connections (step now p w).1 = connections w.
Proof.
  unfold dispatch_post.
  destruct (handler_of (platform p)) as [h|]; [|reflexivity].
  destruct (get_connection w (client_id p) (platform p)) as [c|]; [|reflexivity].
  destruct (h p c (sent w)) as [[ext|e] sent']; reflexivity.
Qed.

Lemma dispatch_loop_connections now l w c :
  connections (loop now l w c).1 = connections w.
Proof.
  revert w c. induction l as [|p l IH]; intros w c; [reflexivity|].
  rewrite DispatcherFacts.dispatch_loop_cons, IH.
  apply dispatch_post_connections.
Qed.

(** X11: a run never writes to the connection table: the stored tokens
    are the same after the run, whatever the handlers did with them. *)
Theorem run_keeps_connections (now : Z) (w : world) :
  connections (run now w).1 = connections w.
Proof.
  rewrite DispatcherFacts.run_as_loop. apply dispatch_loop_connections.
Qed.

Lemma dispatch_post_log now p w :
  ∃ rows, sprintai_posts (step now p w).1 = sprintai_posts w ++ rows ∧
          Forall (λ r, calendar_id r = id p) rows ∧
          length rows = match (step now p w).2 with Skipped => 0 | _ => 1 end%nat.
Proof.
  unfold dispatch_post.
  destruct (handler_of (platform p)) as [h|].
  - destruct (get_connection w (client_id p) (platform p)) as [c|].
    + destruct (h p c (sent w)) as [[ext|e] sent']; simpl;
        eexists; (split; [reflexivity|]); split; try reflexivity;
        repeat constructor.
    + simpl. eexists; (split; [reflexivity|]); split; try reflexivity.
      repeat constructor.
  - exists []. simpl. rewrite app_nil_r.
    split; [reflexivity|]. split; [constructor|reflexivity].
Qed.

(** X12: the companion log is append-only and matches the counts: the
    loop keeps the rows that were there and appends exactly one row for
    each post it counts as posted or failed, none for a skipped one, each
    for a post of the batch. *)
Theorem companion_log_matches_counts (now : Z) (l : list post) (w : world)
    (c : counts) :
  ∃ rows, sprintai_posts (loop now l w c).1 = sprintai_posts w ++ rows ∧
          (length rows + success c + failed c =
           success (loop now l w c).2 + failed (loop now l w c).2)%nat ∧
          Forall (λ r, calendar_id r ∈ id <$> l) rows.
Proof.
  revert w c. induction l as [|p l IH]; intros w c.
  - exists []. simpl. rewrite app_nil_r.
    split; [reflexivity|]. split; [lia|constructor].
  - rewrite DispatcherFacts.dispatch_loop_cons.
    destruct (dispatch_post_log now p w) as (rows1 & Hlog1 & Hids1 & Hlen1).
    destruct (IH (step now p w).1 (tally (step now p w).2 c))
      as (rows2 & Hlog2 & Hlen2 & Hids2).
    exists (rows1 ++ rows2). split; [|split].
    + rewrite Hlog2, Hlog1, app_assoc. reflexivity.
    + rewrite length_app, <- Hlen2, Hlen1.
      destruct (step now p w).2; simpl; lia.
    + apply Forall_app. split.
      * eapply Forall_impl; [exact Hids1|]. intros r ->. rewrite fmap_cons. left.
      * eapply Forall_impl; [exact Hids2|]. intros r Hr. rewrite fmap_cons.
        right. exact Hr.
Qed.

(** The calendar after the loop is the calendar before it with every row
    either kept or, when its id is in the batch, set to posted or failed. *)
Lemma dispatch_loop_rowwise now l w c :
  NoDup (id <$> l) →
  ∃ g, calendar (loop now l w c).1 = g <$> calendar w ∧
       ∀ r, g r = r ∨
            (id r ∈ id <$> l ∧
             (g r = set_status "posted" r ∨ g r = set_status "failed" r)).
Proof.
  revert w c. induction l as [|p l IH]; intros w c Hnd.
  - exists (λ r, r). split; [symmetry; apply list_fmap_id | auto].
  - rewrite fmap_cons in Hnd. apply NoDup_cons in Hnd as [Hp Hnd].
    rewrite DispatcherFacts.dispatch_loop_cons.
    destruct (IH (step now p w).1 (tally (step now p w).2 c) Hnd)
      as (g' & Hcal & Hg').
    rewrite DispatcherFacts.dispatch_post_calendar in Hcal.
    assert (∃ gp, recorded (step now p w).2 (id p) (calendar w) =
                    gp <$> calendar w ∧
                  ∀ r, gp r = r ∨
                       (id r = id p ∧ (gp r = set_status "posted" r ∨
                                       gp r = set_status "failed" r)))
      as (gp & Hrec & Hgp).
    { destruct (step now p w).2; simpl.
      - eexists. split; [reflexivity|]. intros r. simpl.
        destruct (String.eqb (id r) (id p)) eqn:E; [|auto].
        apply String.eqb_eq in E. auto.
      - eexists. split; [reflexivity|]. intros r. simpl.
        destruct (String.eqb (id r) (id p)) eqn:E; [|auto].
        apply String.eqb_eq in E. auto.
      - exists (λ r, r). split; [symmetry; apply list_fmap_id | auto]. }
    exists (g' ∘ gp). split.
    + rewrite Hcal, Hrec, <- list_fmap_compose. reflexivity.
    + intros r. unfold compose. rewrite fmap_cons.
      destruct (Hgp r) as [->|[Hid Hset]].
      * destruct (Hg' r) as [->|[Hin Hs]]; [auto|].
        right. split; [right; exact Hin | exact Hs].
      * assert (g' (gp r) = gp r) as ->.
        { destruct (Hg' (gp r)) as [H|[Hin _]]; [exact H|].
          exfalso. apply Hp.
          assert (id (gp r) = id r) as Hsame
            by (destruct Hset as [Hs|Hs]; rewrite Hs; reflexivity).
          rewrite <- Hid, <- Hsame. exact Hin. }
        right. split; [rewrite Hid; left | exact Hset].
Qed.

Lemma run_rowwise now w :
  NoDup (id <$> calendar w) →
  ∃ g, calendar (run now w).1 = g <$> calendar w ∧
       ∀ r, r ∈ calendar w → moved now r (g r).
Proof.
  intros Hnd. rewrite DispatcherFacts.run_as_loop.
  destruct (dispatch_loop_rowwise now (get_pending_posts now w) w no_counts
              (DispatcherFacts.pending_ids_distinct now w Hnd))
    as (g & Hcal & Hg).
  exists g. split; [exact Hcal|].
  intros r Hr. destruct (Hg r) as [->|[Hin Hset]]; [left; reflexivity|].
  right. split; [|exact Hset].
  apply list_elem_of_fmap in Hin as (q & Hid & Hq).
  apply list_elem_of_filter in Hq as [Hdue Hq].
  rewrite (NoDup_fmap_same id (calendar w) r q Hnd Hr Hq Hid). exact Hdue.
Qed.

(** X13: status only moves forward.  With distinct ids, a run leaves every
    calendar row as it was, except that rows that were pending and due
    may have their status, and nothing else, set to posted or failed; so a
    posted, failed, draft or not yet due row is never touched, and no row
    is added, dropped or reordered. *)
Theorem run_moves_status_forward (now : Z) (w : world) :
  NoDup (id <$> calendar w) →
  Forall2 (moved now) (calendar w) (calendar (run now w).1) ∧
  ∀ r, r ∈ calendar w → ¬ due now r → r ∈ calendar (run now w).1.
Proof.
  intros Hnd. destruct (run_rowwise now w Hnd) as (g & Hcal & Hg).
  rewrite Hcal. split.
  - apply Forall2_fmap_r, Forall_Forall2_diag, Forall_forall. exact Hg.
  - intros r Hr Hnot. destruct (Hg r Hr) as [Hsame|[Hdue _]]; [|contradiction].
    rewrite <- Hsame at 1. apply list_elem_of_fmap_2, Hr.
Qed.

(** X14: what a later poll can still find.  With distinct ids, every post
    that is selected at any instant after a run at [now] either has a
    platform without handler (it was skipped) or was not yet due at
    [now]: a post that has been handed to a handler is never selected
    again, whatever the handler did. *)
Theorem later_poll_finds_no_handled_post (now later : Z) (w : world)
    (q : post) :
  NoDup (id <$> calendar w) →
  q ∈ get_pending_posts later (run now w).1 →
  platform q ∉ known_platforms ∨ now < scheduled_at q.
Proof.
  intros Hnd Hq. apply list_elem_of_filter in Hq as [[Hst _] Hq].
  destruct (run_rowwise now w Hnd) as (g & Hcal & Hg).
  rewrite Hcal in Hq. apply list_elem_of_fmap in Hq as (r & -> & Hr).
  destruct (Hg r Hr) as [Hsame|[_ [Hs|Hs]]];
    [|rewrite Hs in Hst; discriminate..].
  rewrite Hsame in *.
  destruct (decide (scheduled_at r ≤ now)) as [Hdue|]; [left|right; lia].
  assert (r ∈ get_pending_posts now w) as Hsel
    by (apply list_elem_of_filter; split; [split|]; assumption).
  destruct (list_elem_of_split _ _ Hsel) as (l1 & l2 & Hsplit).
  pose proof (DispatcherFacts.pending_ids_distinct now w Hnd) as Hnd1.
  rewrite Hsplit in Hnd1.
  pose proof (DispatcherFacts.dispatch_loop_each net environ exn_str
                now l1 r l2 w no_counts Hnd1) as Hs.
  rewrite <- Hsplit, <- DispatcherFacts.run_as_loop, Hcal in Hs.
  assert (r ∈ g <$> calendar w) as Hin
    by (rewrite <- Hsame at 1; apply list_elem_of_fmap_2, Hr).
  apply handler_for_known, DispatcherFacts.dispatch_post_skipped with
    (exn_str := exn_str) (now := now) (w := (loop now l1 w no_counts).1).
  destruct (step now r (loop now l1 w no_counts).1).2; simpl in Hs;
    [| |reflexivity];
    specialize (Hs r Hin eq_refl); rewrite Hs in Hst; discriminate.
Qed.

End WithEnvironment.

End DispatcherInvariants.

(** ** Further properties of the quality gate *)

Module QualityGateEdgeFacts.
Import ContentQA Derived.

(** *** Scoring *)

Lemma py_sum_summable acc vals :
  is_ok (py_sum acc vals) = true → Forall summable vals.
Proof.
  revert acc. induction vals as [|v vals IH]; intros acc; [constructor|].
  cbn [py_sum].
  destruct (py_add acc v) as [acc'|e] eqn:Hadd; [|discriminate].
  cbn [and_then]. intros Hok. constructor; [|apply (IH acc'), Hok].
  destruct v; simpl; try exact I; discriminate.
Qed.

Lemma round_half_even_near a b :
  0 < b →
  2 * Z.abs (a - b * round_half_even a b) ≤ b.
Proof.
  intros Hb. unfold round_half_even.
  pose proof (Z.div_mod a b ltac:(lia)) as Hdm.
  pose proof (Z.mod_pos_bound a b Hb) as Hr.
  set (q := a / b) in *. set (r := a mod b) in *. clearbody q r.
  destruct (2 * r ?= b) eqn:Hc.
  - apply Z.compare_eq in Hc. destruct (Z.even q); nia.
  - change (2 * r < b) in Hc. nia.
  - change (2 * r > b) in Hc. nia.
Qed.

Lemma scores_values (sc : gmap string json) (P : json → Prop) :
  Forall P (map_to_list sc).*2 ↔ ∀ k v, sc !! k = Some v → P v.
Proof.
  rewrite Forall_fmap, Forall_forall. split.
  - intros H k v Hkv. apply (H (k, v)), elem_of_map_to_list, Hkv.
  - intros H [k v] Hkv. apply (H k), elem_of_map_to_list, Hkv.
Qed.

(** Values that are all integers with the property [P]. *)
Lemma ints_of (P : Z → Prop) (vals : list json) :
  Forall (λ v, ∃ z, v = JInt z ∧ P z) vals →
  ∃ zs, vals = JInt <$> zs ∧ Forall P zs.
Proof.
  induction 1 as [|v vals (z & -> & Hz) _ (zs & -> & Hzs)].
  - exists []. split; [reflexivity | constructor].
  - exists (z :: zs). split; [reflexivity | constructor; assumption].
Qed.

Lemma scale_checked_table :
  forallb (λ n, forallb (scale_checked n) (seqZ 0 (10 * n + 1))) (seqZ 1 20)
  = true.
Proof. vm_compute. reflexivity. Qed.

(** The order of the floats that tenths from 0.0 to 10.0 denote. *)
Lemma tenths_order_table :
  forallb (λ t, forallb (λ t', Bool.eqb (fle (tenths t) (tenths t')) (t <=? t'))
                  (seqZ 0 101)) (seqZ 0 101) = true.
Proof. vm_compute. reflexivity. Qed.

(** Up to 20 scores between 0 and 10: what the code computes. *)
Lemma on_scale n s :
  1 ≤ n ≤ 20 → 0 ≤ s ≤ 10 * n →
  mean_to_one_decimal n s = Ok (tenths (tenth_of n s)) ∧
  2 * Z.abs (10 * s - n * tenth_of n s) ≤ n ∧
  tenth_of n (s - 1) ≤ tenth_of n s ∧
  fle APPROVAL_THRESHOLD (tenths (tenth_of n s)) = (70 <=? tenth_of n s).
Proof.
  intros Hn Hs.
  pose proof (QualityGateFacts.checked_on_range _ 1 20 n
                scale_checked_table ltac:(lia)) as H. cbv beta in H.
  pose proof (QualityGateFacts.checked_on_range _ 0 (10 * n + 1) s
                H ltac:(lia)) as H'.
  unfold scale_checked in H'.
  destruct (mean_to_one_decimal n s) as [x|e] eqn:Hx; [|discriminate].
  apply andb_prop in H' as [H' Hv]. apply andb_prop in H' as [H' Hm].
  apply andb_prop in H' as [Hf Hnear].
  apply QualityGateFacts.float_eqb_eq in Hf. subst x.
  apply Bool.eqb_prop in Hv. apply Z.leb_le in Hnear, Hm. auto.
Qed.

Lemma tenth_of_mono n s s' :
  1 ≤ n ≤ 20 → 0 ≤ s → s ≤ s' → s' ≤ 10 * n →
  tenth_of n s ≤ tenth_of n s'.
Proof.
  intros Hn Hs Hle Hs'.
  replace s' with (s + Z.of_nat (Z.to_nat (s' - s))) in * by lia.
  generalize dependent (Z.to_nat (s' - s)). clear s'.
  intros k. induction k as [|k IH]; intros _ Hk.
  - replace (s + Z.of_nat 0) with s by lia. lia.
  - destruct (on_scale n (s + Z.of_nat (S k)) Hn ltac:(lia))
      as (_ & _ & Hstep & _).
    replace (s + Z.of_nat (S k) - 1) with (s + Z.of_nat k) in Hstep by lia.
    specialize (IH ltac:(lia) ltac:(lia)). lia.
Qed.

Lemma tenth_of_range n s :
  1 ≤ n ≤ 20 → 0 ≤ s ≤ 10 * n → 0 ≤ tenth_of n s ≤ 100.
Proof.
  intros Hn Hs. destruct (on_scale n s Hn Hs) as (_ & Hnear & _). nia.
Qed.

Lemma tenths_order t t' :
  0 ≤ t ≤ 100 → 0 ≤ t' ≤ 100 →
  fle (tenths t) (tenths t') = (t <=? t').
Proof.
  intros Ht Ht'.
  pose proof (QualityGateFacts.checked_on_range _ 0 101 t
                tenths_order_table ltac:(lia)) as H. cbv beta in H.
  pose proof (QualityGateFacts.checked_on_range _ 0 101 t'
                H ltac:(lia)) as H'. cbv beta in H'.
  apply Bool.eqb_prop in H'. exact H'.
Qed.

(** X15: what the gate accepts.  An answer that the validation accepts
    is an object that has the five required keys and whose [scores] is a
    non-empty object of numbers ([int], [bool] or [float]).  Conversely,
    every object with the five keys whose [scores] is a non-empty object of
    at most 20 integers between 0 and 10 is accepted: neither the number
    nor the names nor the order of the scores, nor what [issues],
    [improved_version], [average] and [verdict] are, is checked. *)
Theorem validation_accepts (keys_repr : gmap string json → string)
    (pos : string → nat) (res : json) :
  (is_ok (validate_and_score keys_repr pos res) = true →
   ∃ d sc, res = JObj d ∧
           (∀ k, k ∈ required → is_Some (d !! k)) ∧
           d !! "scores" = Some (JObj sc) ∧ sc ≠ ∅ ∧
           ∀ k v, sc !! k = Some v → summable v) ∧
  (∀ d sc, res = JObj d →
           (∀ k, k ∈ required → is_Some (d !! k)) →
           d !! "scores" = Some (JObj sc) → sc ≠ ∅ → (size sc ≤ 20)%nat →
           (∀ k v, sc !! k = Some v → ∃ z, v = JInt z ∧ 0 ≤ z ≤ 10) →
           is_ok (validate_and_score keys_repr pos res) = true).
Proof.
  split.
  - destruct res as [| | | | | |d]; try discriminate.
    unfold validate_and_score.
    destruct (forallb _ required) eqn:Hreq; [|discriminate].
    assert (∀ k, k ∈ required → is_Some (d !! k)) as Hkeys.
    { intros k Hk. apply list_elem_of_In in Hk.
      apply (bool_decide_eq_true_1 _).
      revert k Hk. apply forallb_forall. exact Hreq. }
    destruct (Hkeys "scores" ltac:(left)) as [s Hs]. rewrite Hs.
    cbn [from_option Datatypes.id].
    destruct s as [| | | | | |sc]; try discriminate.
    unfold recalculated_average.
    destruct (py_sum (NInt 0) (values_in_order pos sc)) as [t|e] eqn:Hsum;
      [|discriminate].
    cbn [and_then].
    destruct (true_div t (Z.of_nat (size sc))) as [m|e] eqn:Hdiv;
      [|discriminate].
    intros _. exists d, sc. repeat split; try assumption.
    + intros ->. rewrite map_size_empty in Hdiv.
      destruct t; discriminate.
    + apply scores_values.
      rewrite <- (QualityGateFacts.values_in_order_perm pos).
      apply (py_sum_summable (NInt 0)). rewrite Hsum. reflexivity.
  - intros d sc -> Hkeys Hs Hne Hsize Hvals.
    apply scores_values, ints_of in Hvals as (zs & Hzs & Hall).
    assert (size sc = length zs) as Hlen.
    { rewrite <- length_map_to_list, <- (length_fmap snd), Hzs, length_fmap.
      reflexivity. }
    assert (size sc ≠ 0%nat) as Hpos by (rewrite map_size_empty_iff; exact Hne).
    pose proof (QualityGateFacts.sum_between _ _ _ Hall) as Hsum.
    unfold validate_and_score.
    rewrite (QualityGateFacts.has_required d Hkeys), Hs.
    cbn [from_option Datatypes.id].
    rewrite (QualityGateFacts.recalculated_average_ints pos sc zs Hzs).
    destruct (on_scale (Z.of_nat (length zs)) (foldr Z.add 0 zs)
                ltac:(lia) ltac:(lia)) as (-> & _).
    reflexivity.
Qed.

(** X16: the average stays in the range of the scores.  For a non-empty
    object of at most 20 integer scores that all lie between [lo] and [hi],
    on the scale from 0 to 10, the recalculated average is the float of a
    tenth between [lo] and [hi]: scores from 1 to 10 give an average from
    1.0 to 10.0, in whatever order they are listed. *)
Theorem average_within_score_range (pos : string → nat)
    (sc : gmap string json) (lo hi : Z) :
  sc ≠ ∅ → (size sc ≤ 20)%nat → 0 ≤ lo → hi ≤ 10 →
  (∀ k v, sc !! k = Some v → ∃ z, v = JInt z ∧ lo ≤ z ≤ hi) →
  ∃ t, recalculated_average pos (JObj sc) = Ok (tenths t) ∧
       10 * lo ≤ t ≤ 10 * hi.
Proof.
  intros Hne Hsize Hlo Hhi Hvals.
  apply scores_values, ints_of in Hvals as (zs & Hzs & Hall).
  assert (size sc = length zs) as Hlen.
  { rewrite <- length_map_to_list, <- (length_fmap snd), Hzs, length_fmap.
    reflexivity. }
  assert (size sc ≠ 0%nat) as Hpos by (rewrite map_size_empty_iff; exact Hne).
  pose proof (QualityGateFacts.sum_between _ _ _ Hall) as Hsum.
  rewrite (QualityGateFacts.recalculated_average_ints pos sc zs Hzs).
  destruct (on_scale (Z.of_nat (length zs)) (foldr Z.add 0 zs)
              ltac:(lia) ltac:(nia)) as (-> & Hnear & _).
  eexists. split; [reflexivity|]. nia.
Qed.

(** X17: the average is a tenth nearest to the mean.  For at most 20
    integer scores [zs] between 0 and 10, the recalculated average is the
    float of a tenth that is at most half a tenth away from their mean.
    When the mean lies half-way between two tenths, the tenth taken need
    not be the even one: twenty scores of total 147 (mean 7.35) give 7.3,
    as the float nearest to 7.35 lies below it. *)
Theorem average_is_rounded_mean (pos : string → nat) (sc : gmap string json)
    (zs : list Z) :
  (map_to_list sc).*2 = JInt <$> zs → zs ≠ [] → (length zs ≤ 20)%nat →
  Forall (λ z, 0 ≤ z ≤ 10) zs →
  (∃ t, recalculated_average pos (JObj sc) = Ok (tenths t) ∧
        2 * Z.abs (10 * foldr Z.add 0 zs - Z.of_nat (length zs) * t)
          ≤ Z.of_nat (length zs)) ∧
  mean_to_one_decimal 20 147 = Ok (tenths 73).
Proof.
  intros Hvals Hne Hlen Hall. split; [|vm_compute; reflexivity].
  pose proof (QualityGateFacts.sum_between _ _ _ Hall) as Hsum.
  assert (length zs ≠ 0%nat) by (destruct zs; [contradiction | discriminate]).
  rewrite (QualityGateFacts.recalculated_average_ints pos sc zs Hvals).
  destruct (on_scale (Z.of_nat (length zs)) (foldr Z.add 0 zs)
              ltac:(lia) ltac:(lia)) as (-> & Hnear & _).
  eexists. split; [reflexivity | exact Hnear].
Qed.

(** X18: six scores are approved from a total of 42.  With six integer
    scores of at most 1000 in absolute value each, the enforced verdict is
    APPROVED exactly when the scores add up to at least 42, and REWRITE
    below, in whatever order they are listed. *)
Theorem six_scores_approved_from_42 (pos : string → nat)
    (sc : gmap string json) (zs : list Z) :
  (map_to_list sc).*2 = JInt <$> zs → length zs = 6%nat →
  Forall (λ z, -1000 ≤ z ≤ 1000) zs →
  ∃ avg, recalculated_average pos (JObj sc) = Ok avg ∧
         (enforced_verdict avg = "APPROVED" ↔ 42 ≤ foldr Z.add 0 zs) ∧
         (enforced_verdict avg = "REWRITE" ↔ foldr Z.add 0 zs < 42).
Proof.
  intros Hvals Hlen Hall.
  pose proof (QualityGateFacts.sum_between _ _ _ Hall) as Hsum.
  rewrite Hlen in Hsum.
  rewrite (QualityGateFacts.recalculated_average_ints pos sc zs Hvals), Hlen.
  change (Z.of_nat 6) with 6.
  destruct (QualityGateFacts.mean_of_six (foldr Z.add 0 zs) ltac:(lia))
    as [-> Hthr].
  eexists. split; [reflexivity|].
  rewrite QualityGateFacts.enforced_verdict_approved,
    QualityGateFacts.enforced_verdict_rewrite, Hthr.
  pose proof (round_half_even_near (10 * foldr Z.add 0 zs) 6 ltac:(lia))
    as Hnear.
  destruct (70 <=? round_half_even (10 * foldr Z.add 0 zs) 6) eqn:E.
  - apply Z.leb_le in E. split; split; try discriminate; try reflexivity; lia.
  - apply Z.leb_gt in E. split; split; try discriminate; try reflexivity; lia.
Qed.

(** X19: raising scores never costs the approval.  For two objects of the
    same number of integer scores, at most 20 and between 0 and 10, a total
    that is at least as high gives an average that is at least as high, so
    an APPROVED verdict stays APPROVED. *)
Theorem higher_scores_keep_approval (pos pos' : string → nat)
    (sc sc' : gmap string json) (zs zs' : list Z) :
  (map_to_list sc).*2 = JInt <$> zs →
  (map_to_list sc').*2 = JInt <$> zs' →
  length zs = length zs' → zs ≠ [] → (length zs ≤ 20)%nat →
  Forall (λ z, 0 ≤ z ≤ 10) zs → Forall (λ z, 0 ≤ z ≤ 10) zs' →
  foldr Z.add 0 zs ≤ foldr Z.add 0 zs' →
  ∃ avg avg', recalculated_average pos (JObj sc) = Ok avg ∧
              recalculated_average pos' (JObj sc') = Ok avg' ∧
              fle avg avg' = true ∧
              (enforced_verdict avg = "APPROVED" →
               enforced_verdict avg' = "APPROVED").
Proof.
  intros Hvals Hvals' Hlen Hne Hmax Hall Hall' Hle.
  pose proof (QualityGateFacts.sum_between _ _ _ Hall) as Hsum.
  pose proof (QualityGateFacts.sum_between _ _ _ Hall') as Hsum'.
  assert (length zs ≠ 0%nat) by (destruct zs; [contradiction | discriminate]).
  rewrite (QualityGateFacts.recalculated_average_ints pos sc zs Hvals).
  rewrite (QualityGateFacts.recalculated_average_ints pos' sc' zs' Hvals').
  rewrite <- Hlen in Hsum' |- *.
  set (n := Z.of_nat (length zs)) in *.
  assert (1 ≤ n ≤ 20) as Hn by lia.
  destruct (on_scale n (foldr Z.add 0 zs) Hn ltac:(lia)) as (-> & _ & _ & Hv).
  destruct (on_scale n (foldr Z.add 0 zs') Hn ltac:(lia)) as (-> & _ & _ & Hv').
  pose proof (tenth_of_mono n (foldr Z.add 0 zs) (foldr Z.add 0 zs') Hn
                ltac:(lia) Hle ltac:(lia)) as Hmono.
  pose proof (tenth_of_range n (foldr Z.add 0 zs) Hn ltac:(lia)) as Hr.
  pose proof (tenth_of_range n (foldr Z.add 0 zs') Hn ltac:(lia)) as Hr'.
  do 2 eexists. split; [reflexivity|]. split; [reflexivity|]. split.
  - rewrite (tenths_order _ _ Hr Hr'). apply Z.leb_le. exact Hmono.
  - rewrite !QualityGateFacts.enforced_verdict_approved, Hv, Hv'.
    rewrite !Z.leb_le. lia.
Qed.

End QualityGateEdgeFacts.

(** ** Retries, writes and accounting of the quality gate *)

Module QualityGateLoopFacts.
Import ContentQA Derived.

(** *** [str.strip] *)

Lemma rstrip_idempotent s : rstrip (rstrip s) = rstrip s.
Proof.
  induction s as [|c s IH]; [reflexivity|]. simpl.
  destruct (rstrip s) as [|c' t] eqn:E.
  - destruct (isspace c) eqn:Ec; [reflexivity|]. simpl. rewrite Ec. reflexivity.
  - simpl in *. rewrite IH. reflexivity.
Qed.

Lemma lstrip_head s :
  lstrip s = "" ∨ ∃ c t, lstrip s = String c t ∧ isspace c = false.
Proof.
  induction s as [|c s IH]; [left; reflexivity|]. simpl.
  destruct (isspace c) eqn:Ec; [exact IH|]. right. eauto.
Qed.

Lemma rstrip_keeps_head c t :
  isspace c = false → ∃ u, rstrip (String c t) = String c u.
Proof.
  intros Ec. simpl. destruct (rstrip t); [rewrite Ec|]; eauto.
Qed.

Lemma strip_idempotent s : strip (strip s) = strip s.
Proof.
  unfold strip. destruct (lstrip_head s) as [->|(c & t & -> & Ec)];
    [reflexivity|].
  destruct (rstrip_keeps_head c t Ec) as [u Hu]. rewrite Hu.
  simpl lstrip. rewrite Ec, <- Hu. apply rstrip_idempotent.
Qed.

Lemma elem_of_update_by_id_hit i (f : post → post) cal r' :
  (∀ x, id (f x) = id x) →
  r' ∈ update_by_id i f cal → id r' = i →
  ∃ r, r ∈ cal ∧ id r = i ∧ r' = f r.
Proof.
  intros Hf Hin Hid. unfold update_by_id in Hin.
  apply list_elem_of_fmap in Hin as (r & -> & Hr).
  destruct (String.eqb (id r) i) eqn:E.
  - apply String.eqb_eq in E. eauto.
  - apply String.eqb_neq in E. contradiction.
Qed.

Lemma elem_of_update_by_id_miss i (f : post → post) cal r :
  id r ≠ i → r ∈ cal → r ∈ update_by_id i f cal.
Proof.
  intros Hne Hin. unfold update_by_id. apply list_elem_of_fmap.
  exists r. apply String.eqb_neq in Hne. rewrite Hne. auto.
Qed.

Lemma apply_qa_result_appends p q w w' :
  apply_qa_result p q false w = (Ok tt, w') →
  ∃ row, qa_log w' = qa_log w ++ [row].
Proof.
  unfold apply_qa_result.
  destruct (and_then _ _) as [[rw txt]|e]; [|discriminate].
  intros [= <-]. eexists. reflexivity.
Qed.

(** X20: a rewrite is stored stripped.  Outside dry-run mode, when the
    verdict is REWRITE and the improved text [s] is not blank, every
    calendar row of the post ends with a text that is not empty and that
    [strip] leaves as it is: no leading or trailing whitespace is ever
    stored by a rewrite. *)
Theorem rewrite_stores_stripped_text (p : post) (q : qa) (w : world)
    (s : string) (r' : post) :
  improved_version q = JStr s → verdict q = "REWRITE" → strip s ≠ "" →
  r' ∈ calendar (apply_qa_result p q false w).2 → id r' = id p →
  post_text r' = strip s ∧ post_text r' ≠ "" ∧ strip (post_text r') = post_text r'.
Proof.
  intros Hs Hv Hne Hin Hid. unfold apply_qa_result in Hin.
  rewrite Hs, Hv in Hin. unfold strip_method in Hin. cbn [and_then] in Hin.
  apply String.eqb_neq in Hne. rewrite String.eqb_refl, Hne in Hin.
  cbn [and_then negb snd calendar] in Hin.
  apply elem_of_update_by_id_hit in Hin as (r & _ & _ & ->);
    [|reflexivity|exact Hid].
  cbn [post_text qa_update]. apply String.eqb_neq in Hne.
  split; [reflexivity|]. split; [exact Hne | apply strip_idempotent].
Qed.

(** X21: calendar and QA log agree.  A review that is applied outside
    dry-run mode appends exactly one log row, for the reviewed post: it
    holds the client, the post id and the platform of the post, the
    computed average, the enforced verdict, the issues and the six named
    scores (an absent one as null).  Its rewritten flag is set exactly
    when the verdict is REWRITE and the improved text is a string that is
    not blank; the flag and the average are the ones written to every
    calendar row of the post. *)
Theorem log_row_matches_calendar (p : post) (q : qa) (w w' : world) :
  apply_qa_result p q false w = (Ok tt, w') →
  ∃ row, qa_log w' = qa_log w ++ [row] ∧
         log_client_id row = client_id p ∧ log_calendar_id row = id p ∧
         log_platform row = platform p ∧
         score_hook row = scores q !! "hook_strength" ∧
         score_local row = scores q !! "local_specificity" ∧
         score_value row = scores q !! "value_delivery" ∧
         score_cta row = scores q !! "cta_clarity" ∧
         score_platform row = scores q !! "platform_fit" ∧
         score_authenticity row = scores q !! "authenticity" ∧
         score_average row = average q ∧ log_verdict row = verdict q ∧
         log_issues row = issues q ∧
         (was_rewritten row = true ↔
          verdict q = "REWRITE" ∧
          ∃ s, improved_version q = JStr s ∧ strip s ≠ "") ∧
         ∀ r', r' ∈ calendar w' → id r' = id p →
               status r' = "pending" ∧
               qa_score r' = Some (score_average row) ∧
               qa_rewritten r' = Some (was_rewritten row).
Proof.
  unfold apply_qa_result.
  destruct (String.eqb (verdict q) "REWRITE") eqn:Ev.
  - apply String.eqb_eq in Ev.
    destruct (improved_version q) as [| | | |s| |] eqn:Ei;
      cbn [strip_method and_then]; try discriminate.
    destruct (String.eqb (strip s) "") eqn:Es; cbn [and_then negb];
      intros [= <-]; (eexists; split; [reflexivity|]); cbn;
      repeat (split; [reflexivity|]).
    + apply String.eqb_eq in Es. split.
      * split; [discriminate|].
        intros (_ & s' & [= <-] & Hne). contradiction.
      * intros r' Hin Hid.
        apply elem_of_update_by_id_hit in Hin as (r & _ & _ & ->);
          [|reflexivity|exact Hid].
        repeat split.
    + apply String.eqb_neq in Es. split.
      * split; [intros _; split; [exact Ev | eauto] | reflexivity].
      * intros r' Hin Hid.
        apply elem_of_update_by_id_hit in Hin as (r & _ & _ & ->);
          [|reflexivity|exact Hid].
        repeat split.
  - apply String.eqb_neq in Ev. cbn [and_then]. intros [= <-].
    eexists. split; [reflexivity|].
    cbn. repeat (split; [reflexivity|]). split.
    + split; [discriminate | intros [Hv _]; contradiction].
    + intros r' Hin Hid.
      apply elem_of_update_by_id_hit in Hin as (r & _ & _ & ->);
        [|reflexivity|exact Hid].
      repeat split.
Qed.

Section WithOracle.

Variable oracle : nat → prompt → result json.
Variable exn_str : exn → string.
Variable keys_repr : gmap string json → string.
Variable position : nat → string → nat.

Local Abbreviation try_once := (ContentQA.try_once oracle keys_repr position).
Local Abbreviation attempts :=
  (ContentQA.attempts oracle exn_str keys_repr position).
Local Abbreviation call_claude_qa :=
  (ContentQA.call_claude_qa oracle exn_str keys_repr position).
Local Abbreviation review_post :=
  (ContentQA.review_post oracle exn_str keys_repr position).
Local Abbreviation review_loop :=
  (ContentQA.review_loop oracle exn_str keys_repr position).

Lemma attempts_first_success retries pr q k :
  ∀ a calls,
    (a + k ≤ retries)%nat →
    (∀ j, (j < k)%nat → is_ok (try_once pr (calls + j)) = false) →
    try_once pr (calls + k) = Ok q →
    attempts retries (seq a (retries + 1 - a)) pr calls =
      (Ok (Some q), S (calls + k)).
Proof.
  induction k as [|k IH]; intros a calls Hle Hfail Hok.
  - replace (retries + 1 - a)%nat with (S (retries - a)) by lia.
    cbn [seq ContentQA.attempts]. rewrite Nat.add_0_r in Hok.
    rewrite Hok, Nat.add_0_r. reflexivity.
  - replace (retries + 1 - a)%nat with (S (retries - a)) by lia.
    cbn [seq ContentQA.attempts].
    pose proof (Hfail 0%nat ltac:(lia)) as H0. rewrite Nat.add_0_r in H0.
    destruct (try_once pr calls) as [q0|e]; [discriminate|].
    assert ((a <? retries)%nat = true) as -> by (apply Nat.ltb_lt; lia).
    replace (retries - a)%nat with (retries + 1 - S a)%nat by lia.
    replace (S (calls + S k)) with (S (S calls + k)) by lia.
    apply IH; [lia| |].
    + intros j Hj. replace (S calls + j)%nat with (calls + S j)%nat by lia.
      apply Hfail. lia.
    + replace (S calls + k)%nat with (calls + S k)%nat by lia. exact Hok.
Qed.

Lemma attempts_all_fail retries pr n :
  ∀ a calls,
    (a + n = retries)%nat →
    (∀ j, (j ≤ n)%nat → is_ok (try_once pr (calls + j)) = false) →
    ∃ e, try_once pr (calls + n) = Raise e ∧
         attempts retries (seq a (S n)) pr calls =
           (Raise (RuntimeError
              ("QA call failed after " +:+ pretty (retries + 1)%nat
               +:+ " attempts: " +:+ exn_str e)), S (calls + n)).
Proof.
  induction n as [|n IH]; intros a calls Ha Hfail.
  - pose proof (Hfail 0%nat ltac:(lia)) as H0. rewrite Nat.add_0_r in *.
    cbn [seq ContentQA.attempts].
    destruct (try_once pr calls) as [q0|e]; [discriminate|].
    assert ((a <? retries)%nat = false) as -> by (apply Nat.ltb_ge; lia).
    eauto.
  - pose proof (Hfail 0%nat ltac:(lia)) as H0. rewrite Nat.add_0_r in H0.
    cbn [seq ContentQA.attempts].
    destruct (try_once pr calls) as [q0|e]; [discriminate|].
    assert ((a <? retries)%nat = true) as -> by (apply Nat.ltb_lt; lia).
    destruct (IH (S a) (S calls) ltac:(lia)) as (e' & He' & Hres).
    { intros j Hj. replace (S calls + j)%nat with (calls + S j)%nat by lia.
      apply Hfail. lia. }
    exists e'. replace (calls + S n)%nat with (S calls + n)%nat by lia.
    split; [exact He' | exact Hres].
Qed.

Lemma attempts_never_none retries pr n :
  ∀ a calls,
    (a + n = retries)%nat →
    (attempts retries (seq a (S n)) pr calls).1 ≠ Ok None ∧
    (calls < (attempts retries (seq a (S n)) pr calls).2 ≤ calls + S n)%nat.
Proof.
  induction n as [|n IH]; intros a calls Ha.
  - cbn [seq ContentQA.attempts].
    destruct (try_once pr calls) as [q0|e]; [simpl; split; [discriminate|lia]|].
    assert ((a <? retries)%nat = false) as -> by (apply Nat.ltb_ge; lia).
    simpl. split; [discriminate|lia].
  - change (seq a (S (S n))) with (a :: seq (S a) (S n)).
    cbn [ContentQA.attempts].
    destruct (try_once pr calls) as [q0|e]; [simpl; split; [discriminate|lia]|].
    assert ((a <? retries)%nat = true) as -> by (apply Nat.ltb_lt; lia).
    destruct (IH (S a) (S calls) ltac:(lia)) as [Hnone Hcalls].
    split; [exact Hnone | lia].
Qed.

(** X22: the first success wins.  For any number of retries, when the
    attempts before the [k]-th fail (oracle or validation) and the [k]-th
    succeeds, with [k] within the retries allowed, [call_claude_qa]
    returns that result after [k + 1] oracle calls and asks no more. *)
Theorem call_claude_qa_first_success (pr : prompt) (retries k calls : nat)
    (q : qa) :
  (k ≤ retries)%nat →
  (∀ j, (j < k)%nat → is_ok (try_once pr (calls + j)) = false) →
  try_once pr (calls + k) = Ok q →
  call_claude_qa pr retries calls = (Ok (Some q), S (calls + k)).
Proof.
  intros Hk Hfail Hok. unfold ContentQA.call_claude_qa.
  replace (retries + 1)%nat with (retries + 1 - 0)%nat by lia.
  apply attempts_first_success; [lia | exact Hfail | exact Hok].
Qed.

(** X23: giving up.  For any number of retries, when all [retries + 1]
    attempts fail, [call_claude_qa] raises a [RuntimeError] whose message
    names the number of attempts and the text of the last failure, after
    exactly [retries + 1] oracle calls. *)
Theorem call_claude_qa_gives_up (pr : prompt) (retries calls : nat) :
  (∀ j, (j ≤ retries)%nat → is_ok (try_once pr (calls + j)) = false) →
  ∃ e, try_once pr (calls + retries) = Raise e ∧
       call_claude_qa pr retries calls =
         (Raise (RuntimeError
            ("QA call failed after " +:+ pretty (retries + 1)%nat
             +:+ " attempts: " +:+ exn_str e)), S (calls + retries)).
Proof.
  intros Hfail. unfold ContentQA.call_claude_qa.
  replace (seq 0 (retries + 1)) with (seq 0 (S retries)) by (f_equal; lia).
  apply attempts_all_fail; [lia | exact Hfail].
Qed.

(** X24: [call_claude_qa] always ends in a result or an exception, never
    in [None], and makes at least one and at most [retries + 1] oracle
    calls. *)
Theorem call_claude_qa_call_budget (pr : prompt) (retries calls : nat) :
  (call_claude_qa pr retries calls).1 ≠ Ok None ∧
  (calls < (call_claude_qa pr retries calls).2 ≤ calls + retries + 1)%nat.
Proof.
  unfold ContentQA.call_claude_qa. rewrite Nat.add_1_r.
  destruct (attempts_never_none retries pr retries 0%nat calls eq_refl)
    as [Hnone Hcalls].
  split; [exact Hnone | lia].
Qed.

(** X25: an answer that passes validation can still stop the batch.  When
    the first attempt for a post yields a REWRITE result whose
    [improved_version] is not a string (a JSON null, say), the loop does
    not skip the post: it ends [main] with an exception, in dry-run mode
    too, the calendar and the log stay as they were and the remaining
    posts are not reviewed. *)
Theorem non_string_rewrite_stops_batch (dry_run : bool)
    (client : gmap string json) (rubric : string) (p : post)
    (rest : list post) (w : world) (rep : report) (q : qa) :
  try_once (build_qa_prompt p client rubric) (oracle_calls w) = Ok q →
  verdict q = "REWRITE" →
  is_str (improved_version q) = false →
  ∃ e, review_loop dry_run client rubric (p :: rest) w rep =
       (Raise e, {| calendar := calendar w; qa_log := qa_log w;
                    oracle_calls := S (oracle_calls w) |}).
Proof.
  intros Hok Hv Hstr.
  pose proof (attempts_first_success 2 (build_qa_prompt p client rubric) q
                0 0 (oracle_calls w) ltac:(lia) ltac:(intros j Hj; lia))
    as Hcall.
  rewrite Nat.add_0_r in Hcall. specialize (Hcall Hok).
  change (attempts 2 (seq 0 (2 + 1 - 0)) (build_qa_prompt p client rubric)
            (oracle_calls w))
    with (call_claude_qa (build_qa_prompt p client rubric) 2 (oracle_calls w))
    in Hcall.
  cbn [ContentQA.review_loop]. unfold ContentQA.review_post.
  rewrite Hcall, Hv.
  change (String.eqb "REWRITE" "APPROVED") with false.
  destruct (issues_str_check q) as [u|e]; cbn [and_then]; [|eauto].
  destruct (rewrite_preview_check q) as [u'|e]; [|eauto].
  unfold apply_qa_result. rewrite Hv.
  change (String.eqb "REWRITE" "REWRITE") with true.
  unfold strip_method.
  destruct (improved_version q); try discriminate; cbn [and_then]; eauto.
Qed.

Lemma review_post_accounting client rubric p w rep rep' w' :
  review_post false client rubric p w rep = (Ok rep', w') →
  ∃ new, results rep' = results rep ++ new ∧
         new.*1 `sublist_of` [p] ∧
         length (qa_log w') = (length (qa_log w) + length new)%nat ∧
         (approved_count rep' + rewritten_count rep' =
          approved_count rep + rewritten_count rep + length new)%nat.
Proof.
  unfold ContentQA.review_post.
  destruct (ContentQA.call_claude_qa _ _ _ _ _ 2 (oracle_calls w))
    as [[[q|]|e] n].
  - destruct (and_then (issues_str_check q) _); [|discriminate].
    destruct (apply_qa_result p q false (set_oracle_calls n w))
      as [[u|e] w2] eqn:Happly; [|discriminate].
    destruct u. apply apply_qa_result_appends in Happly as (row & Hlog).
    intros [= <- <-]. exists [(p, q)]. cbn.
    split; [reflexivity|]. split; [reflexivity|].
    rewrite Hlog, length_app. cbn.
    split; [reflexivity|]. destruct (String.eqb (verdict q) "APPROVED"); lia.
  - discriminate.
  - intros [= <- <-]. exists []. cbn. rewrite app_nil_r.
    split; [reflexivity|]. split; [apply sublist_nil_l|]. lia.
Qed.

(** X26: the books of a review balance.  When the committing review loop
    ends normally, the posts added to its results are posts of the batch,
    in order; each of them got exactly one row in the QA log and was
    counted exactly once, as approved or as rewritten; the posts left out
    are the skipped ones. *)
Theorem review_loop_accounting (client : gmap string json) (rubric : string)
    (posts : list post) (w w' : world) (rep rep' : report) :
  review_loop false client rubric posts w rep = (Ok rep', w') →
  ∃ new, results rep' = results rep ++ new ∧
         new.*1 `sublist_of` posts ∧
         length (qa_log w') = (length (qa_log w) + length new)%nat ∧
         (approved_count rep' + rewritten_count rep' =
          approved_count rep + rewritten_count rep + length new)%nat.
Proof.
  revert w rep. induction posts as [|p posts IH]; intros w rep.
  - intros [= <- <-]. exists []. cbn. rewrite app_nil_r.
    split; [reflexivity|]. split; [constructor|]. lia.
  - cbn [ContentQA.review_loop].
    destruct (review_post false client rubric p w rep) as [[rep1|e] w1] eqn:Hp;
      [|discriminate].
    intros Hrest.
    destruct (review_post_accounting _ _ _ _ _ _ _ Hp)
      as (new1 & Hres1 & Hsub1 & Hlog1 & Hcnt1).
    destruct (IH _ _ Hrest) as (new2 & Hres2 & Hsub2 & Hlog2 & Hcnt2).
    exists (new1 ++ new2). split; [|split; [|split]].
    + rewrite Hres2, Hres1, app_assoc. reflexivity.
    + rewrite fmap_app. change (p :: posts) with ([p] ++ posts).
      apply sublist_app; assumption.
    + rewrite Hlog2, Hlog1, length_app. lia.
    + rewrite Hcnt2, Hcnt1, length_app. lia.
Qed.

Lemma review_post_calls dry_run client rubric p w rep :
  (oracle_calls w < oracle_calls (review_post dry_run client rubric p w rep).2
   ≤ oracle_calls w + 3)%nat.
Proof.
  unfold ContentQA.review_post.
  destruct (attempts_never_none 2 (build_qa_prompt p client rubric) 2 0
              (oracle_calls w) eq_refl) as [_ Hcalls].
  change (attempts 2 (seq 0 3) (build_qa_prompt p client rubric)
            (oracle_calls w))
    with (call_claude_qa (build_qa_prompt p client rubric) 2 (oracle_calls w))
    in Hcalls.
  destruct (ContentQA.call_claude_qa _ _ _ _ _ 2 (oracle_calls w))
    as [[[q|]|e] n]; cbn [fst snd] in *; try (cbn; lia).
  destruct (and_then (issues_str_check q) _); [|cbn; lia].
  pose proof (QualityGateFacts.apply_qa_result_calls p q dry_run
                (set_oracle_calls n w)) as Hsame.
  destruct (apply_qa_result p q dry_run (set_oracle_calls n w))
    as [[u|e] w2]; cbn [fst snd] in *; cbn in Hsame; lia.
Qed.

(** X27: the oracle budget of a review.  A review of [n] posts makes at
    most [3 n] oracle calls, whatever the oracle answers and however the
    loop ends; when it ends normally it has made at least one call for
    each post. *)
Theorem review_loop_call_budget (dry_run : bool) (client : gmap string json)
    (rubric : string) (posts : list post) (w : world) (rep : report) :
  (oracle_calls w ≤
     oracle_calls (review_loop dry_run client rubric posts w rep).2
   ≤ oracle_calls w + 3 * length posts)%nat ∧
  (is_ok (review_loop dry_run client rubric posts w rep).1 = true →
   (oracle_calls w + length posts ≤
      oracle_calls (review_loop dry_run client rubric posts w rep).2)%nat).
Proof.
  revert w rep. induction posts as [|p posts IH]; intros w rep.
  - cbn. split; [lia | intros _; lia].
  - cbn [ContentQA.review_loop].
    pose proof (review_post_calls dry_run client rubric p w rep) as Hp.
    destruct (review_post dry_run client rubric p w rep) as [[rep1|e] w1];
      cbn [fst snd length] in *.
    + destruct (IH w1 rep1) as [Hb Hok]. split; [lia|].
      intros H. specialize (Hok H). lia.
    + split; [lia | discriminate].
Qed.

End WithOracle.

End QualityGateLoopFacts.

(** ** From draft to publication *)

Module PipelineFacts.
Import PostScheduler Derived.

Lemma update_by_id_keeps_ids i (f : post → post) cal :
  (∀ x, id (f x) = id x) → id <$> update_by_id i f cal = id <$> cal.
Proof.
  intros Hf. unfold update_by_id. rewrite <- list_fmap_compose.
  apply list_fmap_ext. intros _ x _. simpl.
  destruct (String.eqb (id x) i); [apply Hf | reflexivity].
Qed.

Lemma elem_of_update_by_id_own (f : post → post) cal r :
  r ∈ cal → f r ∈ update_by_id (id r) f cal.
Proof.
  intros Hr. unfold update_by_id. apply list_elem_of_fmap.
  exists r. rewrite String.eqb_refl. auto.
Qed.

Lemma apply_qa_result_decided p q w w' :
  ContentQA.apply_qa_result p q false w = (Ok tt, w') →
  ∃ rw txt,
    ContentQA.calendar w' =
      update_by_id (id p) (ContentQA.qa_update (ContentQA.average q) rw txt)
        (ContentQA.calendar w) ∧
    rewrite_decided q rw txt.
Proof.
  unfold ContentQA.apply_qa_result, rewrite_decided.
  destruct (String.eqb (ContentQA.verdict q) "REWRITE") eqn:Ev.
  - apply String.eqb_eq in Ev.
    destruct (ContentQA.improved_version q) as [| | | |s| |] eqn:Ei;
      cbn [ContentQA.strip_method and_then]; try discriminate.
    destruct (String.eqb (strip s) "") eqn:Es; cbn [and_then negb];
      intros [= <-]; do 2 eexists; (split; [reflexivity|]).
    + apply String.eqb_eq in Es. right. split; [reflexivity|].
      intros (_ & s' & [= <-] & Hne). contradiction.
    + apply String.eqb_neq in Es. left. eauto 6.
  - apply String.eqb_neq in Ev. cbn [and_then]. intros [= <-].
    do 2 eexists. split; [reflexivity|]. right.
    split; [reflexivity | intros [Hv _]; contradiction].
Qed.

Section WithEnvironment.

Variable net : nat → request → result response.
Variable environ : gmap string string.
Variable exn_str : exn → string.

Local Abbreviation step := (dispatch_post net environ exn_str).
Local Abbreviation loop := (dispatch_loop net environ exn_str).
Local Abbreviation run := (PostScheduler.run net environ exn_str).

(** X28: a generated Instagram post can never be published as it is.  The
    generator writes every row without an image and the quality gate never
    sets one, so whatever the review made of such a row, the loop body
    ends it as failed, for want of a connection or of an image, without
    sending any request; it is never posted. *)
Theorem generated_instagram_post_is_never_published (cid text new_id : string)
    (slot now : Z) (avg : float) (rewritten : bool) (new_text : string) (w : world) :
  let p := ContentQA.qa_update avg rewritten new_text
             (ContentGenerator.new_row cid "instagram" text slot new_id) in
  ∃ err, step now p w = (mark_failed new_id cid "instagram" err w, Failed err) ∧
         (err = no_connection_error p ∨
          err = exn_str (ValueError "Instagram posts require an image_url.")).
Proof.
  intros p. unfold dispatch_post.
  change (handler_for net environ (platform p)) with (Some (post_instagram net)).
  change (platform p) with "instagram". change (client_id p) with cid.
  change (id p) with new_id.
  destruct (get_connection w cid "instagram") as [c|]; eauto.
Qed.

(** With a network that answers every request with a JSON object, a due
    Facebook post that has a connection ends up posted. *)
Lemma due_facebook_post_is_posted now w p :
  NoDup (id <$> calendar w) →
  p ∈ get_pending_posts now w →
  platform p = "facebook" →
  (∃ c, c ∈ connections w ∧ conn_client_id c = client_id p ∧
        conn_platform c = "facebook") →
  (∀ n rq, ∃ d, json_of_answer rq (net n rq) = Ok (JObj d)) →
  set_status "posted" p ∈ calendar (run now w).1.
Proof.
  intros Hnd Hp Hplat Hconn Hnet.
  pose proof (DispatcherFacts.pending_ids_distinct now w Hnd) as Hnd1.
  destruct (list_elem_of_split _ _ Hp) as (l1 & l2 & Hsplit).
  rewrite Hsplit in Hnd1.
  pose proof (DispatcherFacts.dispatch_loop_each net environ exn_str
                now l1 p l2 w no_counts Hnd1) as Hs.
  rewrite <- Hsplit, <- DispatcherFacts.run_as_loop in Hs.
  set (w1 := (loop now l1 w no_counts).1) in *.
  assert (∃ v, (step now p w1).2 = Posted v) as [v Hv].
  { unfold dispatch_post. rewrite Hplat.
    change (handler_for net environ "facebook") with (Some (post_facebook net)).
    pose proof (DispatcherInvariants.get_connection_cases w1 (client_id p)
                  "facebook") as Hc.
    destruct (get_connection w1 (client_id p) "facebook") as [c|].
    - unfold post_facebook. rewrite AdapterEdgeFacts.exchange.
      destruct (Hnet (length (sent w1)) (facebook_request p c)) as [d ->].
      unfold bind, lift, ret, get_method.
      destruct (truthy (default JNull (d !! "post_id"))); eauto.
    - exfalso. destruct Hconn as (c & Hin & Hcid & Hcp).
      apply (Hc c); [|auto].
      unfold w1.
      rewrite DispatcherInvariants.dispatch_loop_connections. exact Hin. }
  rewrite Hv in Hs. simpl in Hs.
  destruct (DispatcherInvariants.run_rowwise net environ exn_str now w Hnd)
    as (g & Hcal & Hg).
  apply list_elem_of_filter in Hp as [[Hst _] Hin].
  assert (g p ∈ calendar (run now w).1) as Hgp
    by (rewrite Hcal; apply list_elem_of_fmap_2, Hin).
  destruct (Hg p Hin) as [Hsame|[_ [Hset|Hset]]].
  - exfalso. rewrite Hsame in Hgp. specialize (Hs p Hgp eq_refl).
    rewrite Hs in Hst. discriminate.
  - rewrite <- Hset. exact Hgp.
  - exfalso. rewrite Hset in Hgp. specialize (Hs _ Hgp eq_refl). discriminate.
Qed.

Section WithOracle.

Variable oracle : nat → ContentQA.prompt → result json.
Variable keys_repr : gmap string json → string.
Variable position : nat → string → nat.

Local Abbreviation review_post :=
  (ContentQA.review_post oracle exn_str keys_repr position).
Local Abbreviation review_loop :=
  (ContentQA.review_loop oracle exn_str keys_repr position).

Lemma review_post_calendar dry_run client rubric p w rep :
  ContentQA.calendar (review_post dry_run client rubric p w rep).2 =
    ContentQA.calendar w ∨
  ∃ f, (∀ x, id (f x) = id x) ∧
       ContentQA.calendar (review_post dry_run client rubric p w rep).2 =
         update_by_id (id p) f (ContentQA.calendar w).
Proof.
  unfold ContentQA.review_post.
  destruct (ContentQA.call_claude_qa _ _ _ _ _ 2 _) as [[[q|]|e] n];
    try (left; reflexivity).
  destruct (and_then (ContentQA.issues_str_check q) _); [|left; reflexivity].
  unfold ContentQA.apply_qa_result.
  destruct (and_then _ _) as [[rw txt]|e]; [|left; reflexivity].
  destruct dry_run; [left; reflexivity|].
  right. eexists. split; [|reflexivity]. reflexivity.
Qed.

(** X29: the quality gate changes only the posts it reviews.  Whatever the
    oracle answers and however the loop ends, a calendar row whose id is
    not the id of a post of the batch is still in the calendar afterwards,
    unchanged, and no row is added, dropped or given another id. *)
Theorem review_touches_only_reviewed_posts (dry_run : bool)
    (client : gmap string json) (rubric : string) (posts : list post)
    (w : ContentQA.world) (rep : ContentQA.report) :
  id <$> ContentQA.calendar (review_loop dry_run client rubric posts w rep).2 =
    id <$> ContentQA.calendar w ∧
  ∀ r, r ∈ ContentQA.calendar w → id r ∉ id <$> posts →
       r ∈ ContentQA.calendar (review_loop dry_run client rubric posts w rep).2.
Proof.
  revert w rep. induction posts as [|p posts IH]; intros w rep.
  - split; [reflexivity | auto].
  - cbn [ContentQA.review_loop].
    pose proof (review_post_calendar dry_run client rubric p w rep) as Hp.
    destruct (review_post dry_run client rubric p w rep) as [[rep1|e] w1];
      cbn [snd] in *.
    + destruct (IH w1 rep1) as [Hids Hkeep]. split.
      * rewrite Hids.
        destruct Hp as [->|(f & Hf & ->)];
          [reflexivity | apply update_by_id_keeps_ids, Hf].
      * intros r Hr Hnot. rewrite fmap_cons, not_elem_of_cons in Hnot.
        destruct Hnot as [Hne Hnot]. apply Hkeep; [|exact Hnot].
        destruct Hp as [->|(f & Hf & ->)]; [exact Hr|].
        apply QualityGateLoopFacts.elem_of_update_by_id_miss; assumption.
    + split.
      * destruct Hp as [->|(f & Hf & ->)];
          [reflexivity | apply update_by_id_keeps_ids, Hf].
      * intros r Hr Hnot. rewrite fmap_cons, not_elem_of_cons in Hnot.
        destruct Hnot as [Hne _].
        destruct Hp as [->|(f & Hf & ->)]; [exact Hr|].
        apply QualityGateLoopFacts.elem_of_update_by_id_miss; assumption.
Qed.

Lemma review_post_reviewed client rubric p w rep rep' w' q :
  review_post false client rubric p w rep = (Ok rep', w') →
  ContentQA.results rep' = ContentQA.results rep ++ [(p, q)] →
  ∃ rw txt,
    ContentQA.calendar w' =
      update_by_id (id p) (ContentQA.qa_update (ContentQA.average q) rw txt)
        (ContentQA.calendar w) ∧
    rewrite_decided q rw txt.
Proof.
  unfold ContentQA.review_post.
  destruct (ContentQA.call_claude_qa _ _ _ _ _ 2 _) as [[[q0|]|e] n].
  - destruct (and_then (ContentQA.issues_str_check q0) _); [|discriminate].
    destruct (ContentQA.apply_qa_result p q0 false _) as [[[]|e] w2] eqn:Happ;
      [|discriminate].
    intros [= <- <-]. cbn. intros Hres.
    apply app_inv_head in Hres. injection Hres as ->.
    apply apply_qa_result_decided in Happ as (rw & txt & Hcal & Hdec).
    exists rw, txt. split; [exact Hcal | exact Hdec].
  - discriminate.
  - intros [= <- <-] Hres. exfalso.
    apply (f_equal length) in Hres. rewrite length_app in Hres. simpl in Hres.
    lia.
Qed.

(** X30: from draft to posted.  Take a Facebook row as the generator
    writes it, in a calendar with distinct ids.  If the committing review
    ends normally with a result [q] for that row, and the dispatcher then
    runs on the reviewed calendar once the slot is due, with a connection
    for the client on file and a network that answers every request with
    a JSON object, then the calendar holds that very row as the review
    left it, with its status set to posted: its score is the average of
    [q]; when the verdict of [q] is REWRITE and its improved text is a
    string that is not blank, the row is flagged as rewritten and its text
    is that string, stripped; otherwise the row is not flagged and its
    text is the generated one. *)
Theorem reviewed_facebook_draft_gets_posted (client : gmap string json)
    (rubric cid text new_id : string) (slot now : Z) (cal : list post)
    (qlog : list ContentQA.log_row) (calls : nat)
    (rep rep' : ContentQA.report) (wq' : ContentQA.world) (q : ContentQA.qa)
    (conns : list connection) (plog : list pub_row) (sent0 : list request) :
  NoDup (id <$> cal) →
  ContentGenerator.new_row cid "facebook" text slot new_id ∈ cal →
  review_loop false client rubric
    [ContentGenerator.new_row cid "facebook" text slot new_id]
    {| ContentQA.calendar := cal; ContentQA.qa_log := qlog;
       ContentQA.oracle_calls := calls |} rep = (Ok rep', wq') →
  ContentQA.results rep' =
    ContentQA.results rep ++
      [(ContentGenerator.new_row cid "facebook" text slot new_id, q)] →
  slot ≤ now →
  (∃ c, c ∈ conns ∧ conn_client_id c = cid ∧ conn_platform c = "facebook") →
  (∀ n rq, ∃ d, json_of_answer rq (net n rq) = Ok (JObj d)) →
  ∃ rw txt,
    set_status "posted"
      (ContentQA.qa_update (ContentQA.average q) rw txt
         (ContentGenerator.new_row cid "facebook" text slot new_id))
    ∈ calendar (run now {| calendar := ContentQA.calendar wq';
                           connections := conns; sprintai_posts := plog;
                           sent := sent0 |}).1 ∧
    ((rw = true ∧ ContentQA.verdict q = "REWRITE" ∧
      ∃ s, ContentQA.improved_version q = JStr s ∧ strip s ≠ "" ∧
           txt = strip s) ∨
     (rw = false ∧
      ¬ (ContentQA.verdict q = "REWRITE" ∧
         ∃ s, ContentQA.improved_version q = JStr s ∧ strip s ≠ ""))).
Proof.
  intros Hnd Hrow Hloop Hres Hdue Hconn Hnet.
  cbn [ContentQA.review_loop] in Hloop.
  destruct (review_post false client rubric _ _ rep) as [[rep1|e] w1] eqn:Hp;
    [|discriminate].
  injection Hloop as <- <-.
  destruct (review_post_reviewed _ _ _ _ _ _ _ q Hp Hres)
    as (rw & txt & Hcal & Hdec).
  cbn [ContentQA.calendar ContentGenerator.new_row id] in Hcal.
  exists rw, txt. split; [|exact Hdec]. apply due_facebook_post_is_posted.
  - cbn [calendar]. rewrite Hcal, update_by_id_keeps_ids by reflexivity.
    exact Hnd.
  - apply list_elem_of_filter. split; [split; [reflexivity | exact Hdue]|].
    cbn [calendar]. rewrite Hcal.
    apply (elem_of_update_by_id_own
             (ContentQA.qa_update (ContentQA.average q) rw txt) cal
             (ContentGenerator.new_row cid "facebook" text slot new_id) Hrow).
  - reflexivity.
  - exact Hconn.
  - exact Hnet.
Qed.

End WithOracle.

End WithEnvironment.

End PipelineFacts.

(** ** The properties above at concrete inputs *)

Module Instances.
Import PostScheduler Derived.

Lemma post_facebook_error_statuses_witness :
  (post_facebook (MoreScenarios.answers_with 404) Scenarios.fb_hello
     Scenarios.fb_page []).1 =
    Raise (HTTPError 404 "https://graph.facebook.com/v19.0/page1/feed").
Proof.
  apply (proj1 (AdapterEdgeFacts.post_facebook_error_statuses
                  (MoreScenarios.answers_with 404) Scenarios.fb_hello
                  Scenarios.fb_page []
                  {| status_code := 404; r_json := Ok (JObj ∅) |} eq_refl)).
  simpl. lia.
Defined.

Lemma post_instagram_stops_after_media_failure_witness :
  post_instagram Scenarios.always_refused MoreScenarios.ig_with_image
    Scenarios.ig_page [] =
    (Raise (RequestException "Connection refused."),
     [instagram_media_request "https://img/1.png" MoreScenarios.ig_with_image
        Scenarios.ig_page]).
Proof.
  apply (AdapterEdgeFacts.post_instagram_stops_after_media_failure
           Scenarios.always_refused MoreScenarios.ig_with_image
           Scenarios.ig_page [] "https://img/1.png"
           (RequestException "Connection refused.")).
  - reflexivity.
  - discriminate.
  - reflexivity.
Defined.

Lemma post_instagram_publishes_creation_id_witness :
  (post_instagram
     (MoreScenarios.first_then [("id", JStr "c1")] [("status", JStr "ok")])
     MoreScenarios.ig_with_image Scenarios.ig_page []).1 = Ok (JStr "c1").
Proof.
  refine (proj2 (AdapterEdgeFacts.post_instagram_publishes_creation_id
            (MoreScenarios.first_then [("id", JStr "c1")] [("status", JStr "ok")])
            MoreScenarios.ig_with_image Scenarios.ig_page []
            "https://img/1.png" (JStr "c1") eq_refl _ eq_refl)
            (list_to_map [("status", JStr "ok")]) eq_refl).
  discriminate.
Defined.

Lemma post_google_business_stops_after_refresh_failure_witness :
  post_google_business Scenarios.always_refused Scenarios.google_env
    Scenarios.gb_post Scenarios.gb_page [] =
    (Raise (RequestException "Connection refused."),
     [google_token_request "tok" "cid" "secret"]).
Proof.
  exact (proj1 (AdapterEdgeFacts.post_google_business_stops_after_refresh_failure
                  Scenarios.always_refused Scenarios.google_env
                  Scenarios.gb_post Scenarios.gb_page [] "cid" "secret"
                  (RequestException "Connection refused.")
                  eq_refl eq_refl eq_refl)).
Defined.

Lemma post_google_business_returns_name_witness :
  (post_google_business
     (MoreScenarios.first_then [("access_token", JStr "ya29")]
        [("name", JStr "accounts/1/locations/2/localPosts/7")])
     Scenarios.google_env Scenarios.gb_post Scenarios.gb_page []).1 =
    Ok (JStr "accounts/1/locations/2/localPosts/7").
Proof.
  rewrite (proj1 (AdapterEdgeFacts.post_google_business_returns_name
                    (MoreScenarios.first_then [("access_token", JStr "ya29")]
                       [("name", JStr "accounts/1/locations/2/localPosts/7")])
                    Scenarios.google_env Scenarios.gb_post Scenarios.gb_page []
                    "cid" "secret" (JStr "ya29")
                    (JStr "accounts/1/locations/2/localPosts/7")
                    (list_to_map
                       [("name", JStr "accounts/1/locations/2/localPosts/7")])
                    eq_refl eq_refl eq_refl eq_refl eq_refl)).
  reflexivity.
Defined.

Lemma run_moves_status_forward_witness :
  Forall2 (moved 200) MoreScenarios.mixed_calendar
    (calendar (run (Scenarios.always [("id", JStr "ext")]) ∅ Scenarios.text_of
                 200 (Scenarios.store MoreScenarios.mixed_calendar)).1) ∧
  status <$> calendar
    (run (Scenarios.always [("id", JStr "ext")]) ∅ Scenarios.text_of 200
       (Scenarios.store MoreScenarios.mixed_calendar)).1 =
    ["posted"; "posted"; "pending"].
Proof.
  split; [|vm_compute; reflexivity].
  refine (proj1 (DispatcherInvariants.run_moves_status_forward
            (Scenarios.always [("id", JStr "ext")]) ∅ Scenarios.text_of 200
            (Scenarios.store MoreScenarios.mixed_calendar) _)).
  refine (bool_decide_unpack _ _). vm_compute. exact I.
Defined.

Lemma later_poll_finds_no_handled_post_witness :
  platform MoreScenarios.late_post ∉ known_platforms ∨
  200 < scheduled_at MoreScenarios.late_post.
Proof.
  refine (DispatcherInvariants.later_poll_finds_no_handled_post
            (Scenarios.always [("id", JStr "ext")]) ∅ Scenarios.text_of
            200 1000 (Scenarios.store MoreScenarios.mixed_calendar)
            MoreScenarios.late_post _ _).
  - refine (bool_decide_unpack _ _). vm_compute. exact I.
  - vm_compute. left.
Defined.

Lemma average_within_score_range_witness :
  ∃ t, ContentQA.recalculated_average (Scenarios.as_prompted 0)
         (JObj (Scenarios.six 6 7 7 7 7 7)) = Ok (tenths t) ∧
       10 * 6 ≤ t ≤ 10 * 7.
Proof.
  apply (QualityGateEdgeFacts.average_within_score_range
           (Scenarios.as_prompted 0) (Scenarios.six 6 7 7 7 7 7) 6 7).
  - intros H. apply (f_equal size) in H. vm_compute in H. discriminate.
  - vm_compute. lia.
  - lia.
  - lia.
  - apply QualityGateEdgeFacts.scores_values.
    replace ((map_to_list (Scenarios.six 6 7 7 7 7 7)).*2)
      with (JInt <$> [7; 7; 7; 7; 6; 7]) by (vm_compute; reflexivity).
    repeat (constructor; [eexists; split; [reflexivity|lia]|]). constructor.
Defined.

Lemma average_is_rounded_mean_witness :
  ∃ t, ContentQA.recalculated_average (Scenarios.as_prompted 0)
         (JObj (Scenarios.six 6 7 7 7 7 7)) = Ok (tenths t) ∧ t = 68.
Proof.
  destruct (proj1 (QualityGateEdgeFacts.average_is_rounded_mean
              (Scenarios.as_prompted 0)
              (Scenarios.six 6 7 7 7 7 7) [7; 7; 7; 7; 6; 7]
              ltac:(vm_compute; reflexivity) ltac:(discriminate)
              ltac:(simpl; lia)
              ltac:(repeat (constructor; [lia|]); constructor)))
    as (t & Ht & Hnear).
  exists t. split; [exact Ht|]. simpl in Hnear. lia.
Defined.

Lemma six_scores_approved_from_42_witness :
  ∃ avg, ContentQA.recalculated_average (Scenarios.as_prompted 0)
           (JObj (Scenarios.six 6 7 7 7 7 7)) = Ok avg ∧
         ContentQA.enforced_verdict avg = "REWRITE".
Proof.
  destruct (QualityGateEdgeFacts.six_scores_approved_from_42
              (Scenarios.as_prompted 0)
              (Scenarios.six 6 7 7 7 7 7) [7; 7; 7; 7; 6; 7])
    as (avg & Havg & _ & Hrw).
  - vm_compute. reflexivity.
  - reflexivity.
  - repeat (constructor; [lia|]). constructor.
  - exists avg. split; [exact Havg|]. apply Hrw. simpl. lia.
Defined.

Lemma higher_scores_keep_approval_witness :
  ∃ avg avg',
    ContentQA.recalculated_average (Scenarios.as_prompted 0)
      (JObj (Scenarios.six 5 5 5 5 5 5)) = Ok avg ∧
    ContentQA.recalculated_average (Scenarios.as_prompted 1)
      (JObj (Scenarios.six 6 7 7 7 7 7)) = Ok avg' ∧
    fle avg avg' = true.
Proof.
  destruct (QualityGateEdgeFacts.higher_scores_keep_approval
              (Scenarios.as_prompted 0) (Scenarios.as_prompted 1)
              (Scenarios.six 5 5 5 5 5 5) (Scenarios.six 6 7 7 7 7 7)
              [5; 5; 5; 5; 5; 5] [7; 7; 7; 7; 6; 7])
    as (avg & avg' & Ha & Ha' & Hle & _).
  - vm_compute. reflexivity.
  - vm_compute. reflexivity.
  - reflexivity.
  - discriminate.
  - simpl. lia.
  - repeat (constructor; [lia|]). constructor.
  - repeat (constructor; [lia|]). constructor.
  - simpl. lia.
  - eauto.
Defined.

Lemma rewrite_stores_stripped_text_witness :
  post_text (ContentQA.qa_update (tenths 50) true "Is your AC ready for July?"
               Scenarios.weak_draft) = strip MoreScenarios.july ∧
  post_text (ContentQA.qa_update (tenths 50) true "Is your AC ready for July?"
               Scenarios.weak_draft) ≠ "" ∧
  strip (post_text (ContentQA.qa_update (tenths 50) true
                      "Is your AC ready for July?" Scenarios.weak_draft)) =
    post_text (ContentQA.qa_update (tenths 50) true
                 "Is your AC ready for July?" Scenarios.weak_draft).
Proof.
  apply (QualityGateLoopFacts.rewrite_stores_stripped_text
           Scenarios.weak_draft (Scenarios.rewrite_qa MoreScenarios.july)
           (Scenarios.qa_store [Scenarios.weak_draft]) MoreScenarios.july).
  - reflexivity.
  - reflexivity.
  - vm_compute. discriminate.
  - vm_compute. left.
  - reflexivity.
Defined.

Lemma log_row_matches_calendar_witness :
  ∃ row,
    ContentQA.qa_log
      (ContentQA.apply_qa_result Scenarios.weak_draft
         (Scenarios.rewrite_qa MoreScenarios.july) false
         (Scenarios.qa_store [Scenarios.weak_draft])).2 = [] ++ [row] ∧
    ContentQA.log_calendar_id row = "cal-1" ∧
    ContentQA.score_cta row = Some (JInt 5) ∧
    ContentQA.score_average row = tenths 50.
Proof.
  destruct (QualityGateLoopFacts.log_row_matches_calendar
              Scenarios.weak_draft (Scenarios.rewrite_qa MoreScenarios.july)
              (Scenarios.qa_store [Scenarios.weak_draft])
              (ContentQA.apply_qa_result Scenarios.weak_draft
                 (Scenarios.rewrite_qa MoreScenarios.july) false
                 (Scenarios.qa_store [Scenarios.weak_draft])).2)
    as (row & Hlog & _ & Hid & _ & _ & _ & _ & Hcta & _ & _ & Havg & _).
  - vm_compute. reflexivity.
  - exists row. split; [exact Hlog|]. split; [exact Hid|].
    split; [exact Hcta | exact Havg].
Defined.

Lemma call_claude_qa_first_success_witness :
  ContentQA.call_claude_qa MoreScenarios.down_once Scenarios.text_of
    Scenarios.keys_text Scenarios.as_prompted MoreScenarios.review_prompt 2 0 =
    (Ok (Some (Scenarios.rewrite_qa MoreScenarios.july)), 2%nat).
Proof.
  apply (QualityGateLoopFacts.call_claude_qa_first_success
           MoreScenarios.down_once Scenarios.text_of Scenarios.keys_text
           Scenarios.as_prompted
           MoreScenarios.review_prompt 2 1 0
           (Scenarios.rewrite_qa MoreScenarios.july)).
  - lia.
  - intros j Hj. destruct j; [reflexivity | lia].
  - vm_compute. reflexivity.
Defined.

Lemma call_claude_qa_gives_up_witness :
  (ContentQA.call_claude_qa MoreScenarios.always_down Scenarios.text_of
     Scenarios.keys_text Scenarios.as_prompted
     MoreScenarios.review_prompt 2 0).2 = 3%nat.
Proof.
  destruct (QualityGateLoopFacts.call_claude_qa_gives_up
              MoreScenarios.always_down Scenarios.text_of Scenarios.keys_text
              Scenarios.as_prompted
              MoreScenarios.review_prompt 2 0) as (e & _ & Hcall).
  - intros j Hj. reflexivity.
  - rewrite Hcall. reflexivity.
Defined.

Lemma non_string_rewrite_stops_batch_witness :
  ∃ e,
    ContentQA.review_loop MoreScenarios.null_rewrite Scenarios.text_of
      Scenarios.keys_text Scenarios.as_prompted false Scenarios.acme "rubric"
      [Scenarios.weak_draft; Scenarios.next_draft]
      (Scenarios.qa_store [Scenarios.weak_draft; Scenarios.next_draft])
      Scenarios.no_report =
    (Raise e,
     {| ContentQA.calendar := [Scenarios.weak_draft; Scenarios.next_draft];
        ContentQA.qa_log := []; ContentQA.oracle_calls := 1 |}).
Proof.
  apply (QualityGateLoopFacts.non_string_rewrite_stops_batch
           MoreScenarios.null_rewrite Scenarios.text_of Scenarios.keys_text
           Scenarios.as_prompted
           false Scenarios.acme "rubric" Scenarios.weak_draft
           [Scenarios.next_draft]
           (Scenarios.qa_store [Scenarios.weak_draft; Scenarios.next_draft])
           Scenarios.no_report MoreScenarios.null_qa).
  - vm_compute. reflexivity.
  - reflexivity.
  - reflexivity.
Defined.

Lemma review_loop_accounting_witness :
  ∃ new,
    ContentQA.results MoreScenarios.one_rewritten =
      ContentQA.results Scenarios.no_report ++ new ∧
    new.*1 `sublist_of` [Scenarios.weak_draft] ∧
    length (ContentQA.qa_log
              (ContentQA.review_loop MoreScenarios.down_once Scenarios.text_of
                 Scenarios.keys_text Scenarios.as_prompted false
                 Scenarios.acme "rubric"
                 [Scenarios.weak_draft]
                 (Scenarios.qa_store [Scenarios.weak_draft])
                 Scenarios.no_report).2) = (0 + length new)%nat.
Proof.
  destruct (QualityGateLoopFacts.review_loop_accounting
              MoreScenarios.down_once Scenarios.text_of Scenarios.keys_text
              Scenarios.as_prompted
              Scenarios.acme "rubric" [Scenarios.weak_draft]
              (Scenarios.qa_store [Scenarios.weak_draft])
              (ContentQA.review_loop MoreScenarios.down_once Scenarios.text_of
                 Scenarios.keys_text Scenarios.as_prompted false
                 Scenarios.acme "rubric"
                 [Scenarios.weak_draft]
                 (Scenarios.qa_store [Scenarios.weak_draft])
                 Scenarios.no_report).2
              Scenarios.no_report MoreScenarios.one_rewritten)
    as (new & Hres & Hsub & Hlog & _).
  - vm_compute. reflexivity.
  - exists new. split; [exact Hres|]. split; [exact Hsub | exact Hlog].
Defined.

Lemma reviewed_facebook_draft_gets_posted_witness :
  ∃ rw txt,
    set_status "posted"
      (ContentQA.qa_update (ContentQA.average MoreScenarios.approved_qa) rw txt
         (ContentGenerator.new_row "acme" "facebook" "Beat the heat." 100 "cal-9"))
    ∈ calendar
        (run (Scenarios.always [("id", JStr "ext")]) ∅ Scenarios.text_of 200
           {| calendar :=
                ContentQA.calendar
                  (ContentQA.review_loop MoreScenarios.approving
                     Scenarios.text_of Scenarios.keys_text
                     Scenarios.as_prompted false Scenarios.acme
                     "rubric" [MoreScenarios.fresh_facebook]
                     (Scenarios.qa_store [MoreScenarios.fresh_facebook])
                     Scenarios.no_report).2;
              connections := [Scenarios.fb_page]; sprintai_posts := [];
              sent := [] |}).1 ∧
    rw = false.
Proof.
  destruct (PipelineFacts.reviewed_facebook_draft_gets_posted
           (Scenarios.always [("id", JStr "ext")]) ∅ Scenarios.text_of
           MoreScenarios.approving Scenarios.keys_text Scenarios.as_prompted
           Scenarios.acme
           "rubric" "acme" "Beat the heat." "cal-9" 100 200
           [MoreScenarios.fresh_facebook] [] 0 Scenarios.no_report
           MoreScenarios.one_approved
           (ContentQA.review_loop MoreScenarios.approving
              Scenarios.text_of Scenarios.keys_text Scenarios.as_prompted
              false Scenarios.acme
              "rubric" [MoreScenarios.fresh_facebook]
              (Scenarios.qa_store [MoreScenarios.fresh_facebook])
              Scenarios.no_report).2
           MoreScenarios.approved_qa [Scenarios.fb_page] [] [])
    as (rw & txt & Hrow & Hdec).
  - refine (bool_decide_unpack _ _). vm_compute. exact I.
  - left.
  - vm_compute. reflexivity.
  - reflexivity.
  - lia.
  - exists Scenarios.fb_page. split; [left | split; reflexivity].
  - intros n rq. eexists. reflexivity.
  - exists rw, txt. split; [exact Hrow|].
    destruct Hdec as [(_ & Hv & _) | (Hrw & _)]; [discriminate Hv | exact Hrw].
Defined.

End Instances.
